(** * daikin-aircon-jslib: the protocol codec of [connector.ts]

    A shallow embedding of the response decoder, the coercion tables, the
    field mapper and the read-modify-write merge of [Aircon], together with
    the properties of the specification that they satisfy or violate.

    Conventions of the embedding:
    - a JavaScript string is a [string]; a character outside ASCII is held
      as the bytes of its UTF-8 form (the wire payload is ASCII text);
    - a dictionary-shaped object is a [gmap string jsval];
    - a promise chain is a computation in the monad [io], which threads the
      list of requests handed to the transport and may end in a thrown or
      rejected [exn]. *)

From Stdlib Require Import ZArith NArith List String Ascii Bool Lia.
From stdpp Require Import base option list strings gmap fin_maps.

Local Open Scope string_scope.
Local Open Scope Z_scope.

(** ** Built-ins of the language used by the connector *)

Module JS.

(** [s.split(sep)] for a one-character separator: never an empty list. *)
Fixpoint split (sep : ascii) (s : string) : list string :=
  match s with
  | EmptyString => [EmptyString]
  | String c s' =>
      if Ascii.eqb c sep then EmptyString :: split sep s'
      else match split sep s' with
           | [] => [String c EmptyString]
           | p :: ps => String c p :: ps
           end
  end.

(** [sub] is found at the start of [s]. *)
Fixpoint starts_with (sub s : string) : bool :=
  match sub, s with
  | EmptyString, _ => true
  | String a sub', String b s' => Ascii.eqb a b && starts_with sub' s'
  | String _ _, EmptyString => false
  end.

(** [s.indexOf(sub)]: the first position where [sub] occurs, or -1. *)
Fixpoint indexOf (sub s : string) : Z :=
  if starts_with sub s then 0
  else match s with
       | EmptyString => -1
       | String _ s' => let i := indexOf sub s' in
                        if i =? -1 then -1 else i + 1
       end.

(** [s.substr(n)]: what follows the first [n] characters. *)
Fixpoint substr (n : nat) (s : string) : string :=
  match n, s with
  | O, _ => s
  | S n', String _ s' => substr n' s'
  | S _, EmptyString => EmptyString
  end.

(** *** [decodeURIComponent] *)

Definition hex_value (c : ascii) : option Z :=
  let n := Z.of_N (N_of_ascii c) in
  if (48 <=? n) && (n <=? 57) then Some (n - 48)
  else if (65 <=? n) && (n <=? 70) then Some (n - 55)
  else if (97 <=? n) && (n <=? 102) then Some (n - 87)
  else None.

Definition byte_char (b : Z) : ascii := ascii_of_N (Z.to_N b).

(** The code point carried by a complete multi-byte sequence, when the
    sequence is the shortest form of a scalar value. *)
Definition utf8_code_point (octets : list Z) : option Z :=
  match octets with
  | [b0; b1] =>
      let cp := Z.lor (Z.shiftl (Z.land b0 31) 6) (Z.land b1 63) in
      if 128 <=? cp then Some cp else None
  | [b0; b1; b2] =>
      let cp := Z.lor (Z.shiftl (Z.land b0 15) 12)
                 (Z.lor (Z.shiftl (Z.land b1 63) 6) (Z.land b2 63)) in
      if (2048 <=? cp) && negb ((55296 <=? cp) && (cp <=? 57343))
      then Some cp else None
  | [b0; b1; b2; b3] =>
      let cp := Z.lor (Z.shiftl (Z.land b0 7) 18)
                 (Z.lor (Z.shiftl (Z.land b1 63) 12)
                   (Z.lor (Z.shiftl (Z.land b2 63) 6) (Z.land b3 63))) in
      if (65536 <=? cp) && (cp <=? 1114111) then Some cp else None
  | _ => None
  end.

(** Number of bytes announced by a leading byte of 128 or more. *)
Definition utf8_width (b : Z) : option nat :=
  if Z.land b 224 =? 192 then Some 2%nat
  else if Z.land b 240 =? 224 then Some 3%nat
  else if Z.land b 248 =? 240 then Some 4%nat
  else None.

Inductive utf8_state :=
| Idle
| Pending (missing : nat) (octets : list Z).

Definition emit (octets : list Z) (s : string) : string :=
  fold_right (fun b acc => String (byte_char b) acc) s octets.

(** [None] stands for the [URIError] that the built-in throws. *)
Fixpoint decode_from (st : utf8_state) (s : string) : option string :=
  match s with
  | EmptyString => match st with Idle => Some EmptyString | Pending _ _ => None end
  | String c rest =>
      if Ascii.eqb c "%" then
        match rest with
        | String h (String l rest') =>
            match hex_value h, hex_value l with
            | Some a, Some b =>
                let B := 16 * a + b in
                match st with
                | Idle =>
                    if B <? 128 then String (byte_char B) <$> decode_from Idle rest'
                    else match utf8_width B with
                         | Some (S n) => decode_from (Pending n [B]) rest'
                         | _ => None
                         end
                | Pending n octets =>
                    if Z.land B 192 =? 128 then
                      match n with
                      | S (S n') => decode_from (Pending (S n') (octets ++ [B])) rest'
                      | _ =>
                          match utf8_code_point (octets ++ [B]) with
                          | Some _ => emit (octets ++ [B]) <$> decode_from Idle rest'
                          | None => None
                          end
                      end
                    else None
                end
            | _, _ => None
            end
        | _ => None
        end
      else match st with
           | Idle => String c <$> decode_from Idle rest
           | Pending _ _ => None
           end
  end.

Definition decodeURIComponent (s : string) : option string := decode_from Idle s.

(** *** Numbers

    A Number is an IEEE 754 binary64 value.  [Finite neg m e] is
    [m * 2^e] with the sign [neg]; a value built by the functions below has
    [2^52 <= m < 2^53] and [-1074 <= e <= 971], or [m < 2^52] and
    [e = -1074]. *)

Inductive number :=
| NaN
| Infinity (neg : bool)
| Zero (neg : bool)
| Finite (neg : bool) (m : positive) (e : Z).

Definition canonical (m : positive) (e : Z) : Prop :=
  (2 ^ 52 <= Z.pos m < 2 ^ 53 /\ -1074 <= e <= 971) \/
  (Z.pos m < 2 ^ 52 /\ e = -1074).

(** The ratio [a / (b * 2^E)] as a fraction of integers. *)
Definition scale2 (a b E : Z) : Z * Z :=
  (a * 2 ^ Z.max 0 (- E), b * 2 ^ Z.max 0 E).

(** Nearest integer to [num / den], ties to the even one. *)
Definition round_half_even (num den : Z) : Z :=
  let q := num / den in
  let r := num mod den in
  if 2 * r <? den then q
  else if den <? 2 * r then q + 1
  else if Z.even q then q else q + 1.

(** The exponent of the binade of [a / b]: the [E] with
    [2^52 <= a / (b * 2^E) < 2^53], from the bit lengths of [a] and [b] and
    one comparison. *)
Definition binade_exp (a b : Z) : Z :=
  let E0 := Z.log2 a - Z.log2 b - 52 in
  let '(n0, d0) := scale2 a b E0 in
  if n0 <? d0 * 2 ^ 52 then E0 - 1 else E0.

(** The Number value of the positive rational [a / b]: round to nearest,
    ties to even, gradual underflow, overflow to infinity. *)
Definition round_ratio (neg : bool) (a b : Z) : number :=
  let E := Z.max (binade_exp a b) (-1074) in
  let '(num, den) := scale2 a b E in
  let m := round_half_even num den in
  let '(m, E) := if m =? 2 ^ 53 then (2 ^ 52, E + 1) else (m, E) in
  match m with
  | Z.pos p => if 971 <? E then Infinity neg else Finite neg p E
  | _ => Zero neg
  end.

(** The Number value of the decimal [d * 10^q], [0 <= d]. *)
Definition round_decimal (neg : bool) (d q : Z) : number :=
  if d =? 0 then Zero neg
  else round_ratio neg (d * 10 ^ Z.max 0 q) (10 ^ Z.max 0 (- q)).

Definition one : number := Finite false (2 ^ 52) (-52).

(** Comparison of two Numbers by [===]. *)
Definition number_eqb (x y : number) : bool :=
  match x, y with
  | Zero _, Zero _ => true
  | Infinity a, Infinity b => Bool.eqb a b
  | Finite a m e, Finite b m' e' => Bool.eqb a b && Pos.eqb m m' && (e =? e')
  | _, _ => false
  end.

(** *** Reading numbers: [parseInt(s, 10)] and [parseFloat(s)] *)

Definition code (c : ascii) : Z := Z.of_N (N_of_ascii c).

Definition is_digit (c : ascii) : bool := (48 <=? code c) && (code c <=? 57).

Definition digit_value (c : ascii) : Z := code c - 48.

(** White space and line terminators; those outside ASCII (U+00A0, U+1680,
    U+2000 to U+200A, U+2028, U+2029, U+202F, U+205F, U+3000, U+FEFF) by
    their UTF-8 bytes. *)
Definition is_space1 (c : ascii) : bool :=
  ((9 <=? code c) && (code c <=? 13)) || (code c =? 32).

Definition is_space2 (c0 c1 : ascii) : bool :=
  (code c0 =? 194) && (code c1 =? 160).

Definition is_space3 (c0 c1 c2 : ascii) : bool :=
  let '(a, b, c) := (code c0, code c1, code c2) in
  ((a =? 225) && (b =? 154) && (c =? 128))
  || ((a =? 226) && (b =? 128)
      && (((128 <=? c) && (c <=? 138)) || (c =? 168) || (c =? 169) || (c =? 175)))
  || ((a =? 226) && (b =? 129) && (c =? 159))
  || ((a =? 227) && (b =? 128) && (c =? 128))
  || ((a =? 239) && (b =? 187) && (c =? 191)).

Fixpoint trim_start (s : string) : string :=
  match s with
  | EmptyString => EmptyString
  | String c0 r0 =>
      if is_space1 c0 then trim_start r0
      else match r0 with
           | String c1 r1 =>
               if is_space2 c0 c1 then trim_start r1
               else match r1 with
                    | String c2 r2 =>
                        if is_space3 c0 c1 c2 then trim_start r2 else s
                    | EmptyString => s
                    end
           | EmptyString => s
           end
  end.

Definition read_sign (s : string) : bool * string :=
  match s with
  | String c r =>
      if Ascii.eqb c "-" then (true, r)
      else if Ascii.eqb c "+" then (false, r)
      else (false, s)
  | EmptyString => (false, s)
  end.

(** The longest prefix made of decimal digits, and what follows it. *)
Fixpoint span_digits (s : string) : string * string :=
  match s with
  | String c r =>
      if is_digit c then let '(ds, r') := span_digits r in (String c ds, r')
      else (EmptyString, s)
  | EmptyString => (EmptyString, EmptyString)
  end.

Fixpoint digits_value (acc : Z) (ds : string) : Z :=
  match ds with
  | EmptyString => acc
  | String c r => digits_value (10 * acc + digit_value c) r
  end.

Definition is_empty (s : string) : bool :=
  match s with EmptyString => true | _ => false end.

Definition parseInt (s : string) : number :=
  let '(neg, r) := read_sign (trim_start s) in
  let '(ds, _) := span_digits r in
  if is_empty ds then NaN else round_decimal neg (digits_value 0 ds) 0.

(** The exponent part [e], [e+] or [e-] followed by digits; an exponent
    marker that no digit follows is not part of the literal. *)
Definition read_exponent (s : string) : Z :=
  match s with
  | String c r =>
      if Ascii.eqb c "e" || Ascii.eqb c "E" then
        let '(eneg, r') := read_sign r in
        let '(ds, _) := span_digits r' in
        if is_empty ds then 0
        else if eneg then - digits_value 0 ds else digits_value 0 ds
      else 0
  | EmptyString => 0
  end.

(** The number written at the start of [r], after the sign. *)
Definition read_decimal (neg : bool) (r : string) : number :=
  if starts_with "Infinity" r then Infinity neg
  else
    let '(ip, r1) := span_digits r in
    let '(fp, r2) :=
      match r1 with
      | String c r' => if Ascii.eqb c "." then span_digits r' else (EmptyString, r1)
      | EmptyString => (EmptyString, r1)
      end in
    if is_empty ip && is_empty fp then NaN
    else round_decimal neg (digits_value 0 (ip ++ fp))
                       (read_exponent r2 - Z.of_nat (String.length fp)).

Definition parseFloat (s : string) : number :=
  let '(neg, r) := read_sign (trim_start s) in read_decimal neg r.

(** *** Writing numbers: [Number::toString] in radix 10 *)

Definition digit_char (d : Z) : ascii := ascii_of_N (Z.to_N (48 + d)).

Fixpoint digits_fuel (fuel : nat) (z : Z) (acc : string) : string :=
  match fuel with
  | O => acc
  | S f =>
      let acc' := String (digit_char (z mod 10)) acc in
      if z <? 10 then acc' else digits_fuel f (z / 10) acc'
  end.

(** The decimal digits of [z], [0 <= z], most significant first. *)
Definition digits_of (z : Z) : string :=
  digits_fuel (S (Z.to_nat (Z.log2 z))) z EmptyString.

Fixpoint zeros (n : nat) : string :=
  match n with O => EmptyString | S n' => String "0" (zeros n') end.

Fixpoint take (n : nat) (s : string) : string :=
  match n, s with
  | S n', String c r => String c (take n' r)
  | _, _ => EmptyString
  end.

(** The text of the decimal [s * 10^q], [0 < s]; with [k] the number of
    digits of [s] and [n = q + k], the value is [0.d1...dk * 10^n]. *)
Definition render (s q : Z) : string :=
  let ds := digits_of s in
  let k := Z.of_nat (String.length ds) in
  let n := q + k in
  if (k <=? n) && (n <=? 21) then ds ++ zeros (Z.to_nat (n - k))
  else if (0 <? n) && (n <=? 21) then
    take (Z.to_nat n) ds ++ "." ++ substr (Z.to_nat n) ds
  else if (-6 <? n) && (n <=? 0) then "0." ++ zeros (Z.to_nat (- n)) ++ ds
  else
    let ex := (if n - 1 <? 0 then "-" else "+") ++ digits_of (Z.abs (n - 1)) in
    match ds with
    | EmptyString => EmptyString
    | String d EmptyString => String d ("e" ++ ex)
    | String d r => String d ("." ++ r ++ "e" ++ ex)
    end.

(** [m * 2^e < 10^n] *)
Definition below_pow10 (m e n : Z) : bool :=
  m * 2 ^ Z.max 0 e * 10 ^ Z.max 0 (- n) <? 10 ^ Z.max 0 n * 2 ^ Z.max 0 (- e).

Fixpoint find_exp10 (fuel : nat) (m e n : Z) : Z :=
  match fuel with
  | O => n
  | S f => if below_pow10 m e n then n else find_exp10 f m e (n + 1)
  end.

(** The [n] with [10^(n-1) <= m * 2^e < 10^n]; a binary64 value has it
    between -323 and 309. *)
Definition exp10 (m e : Z) : Z := find_exp10 640 m e (-323).

Fixpoint strip_zeros (fuel : nat) (s q : Z) : Z * Z :=
  match fuel with
  | O => (s, q)
  | S f => if (0 <? s) && (s mod 10 =? 0) then strip_zeros f (s / 10) (q + 1)
           else (s, q)
  end.

(** The two decimals of [k] digits around [m * 2^e], each without its
    trailing zeros: the nearer one first, and of two equally near the even
    one. *)
Definition candidates (m e n k : Z) : (Z * Z) * (Z * Z) :=
  let num := m * 2 ^ Z.max 0 e * 10 ^ Z.max 0 (k - n) in
  let den := 2 ^ Z.max 0 (- e) * 10 ^ Z.max 0 (n - k) in
  let lo := num / den in
  let below := strip_zeros 20 lo (n - k) in
  let above := strip_zeros 20 (lo + 1) (n - k) in
  if round_half_even num den =? lo then (below, above) else (above, below).

Definition reads_as (s q : Z) (m : positive) (e : Z) : bool :=
  match round_decimal false s q with
  | Finite _ m' e' => Pos.eqb m m' && (e =? e')
  | _ => false
  end.

(** The first number of digits [k], from [k] on, for which a decimal of
    [k] digits reads back as [m * 2^e], with the nearest such decimal. *)
Fixpoint search (fuel : nat) (m : positive) (e n k : Z) : option (Z * Z) :=
  match fuel with
  | O => None
  | S f =>
      let '((s1, q1), (s2, q2)) := candidates (Z.pos m) e n k in
      if reads_as s1 q1 m e then Some (s1, q1)
      else if reads_as s2 q2 m e then Some (s2, q2)
      else search f m e n (k + 1)
  end.

(** The exact decimal expansion of [m * 2^e]. *)
Definition exact_decimal (m : positive) (e : Z) : Z * Z :=
  if 0 <=? e then (Z.pos m * 2 ^ e, 0) else (Z.pos m * 5 ^ (- e), e).

(** The shortest decimal that reads back as [m * 2^e]: the fewest digits
    [k], and for that [k] the decimal nearest to the value among those that
    read back.  Seventeen
    digits are enough for every binary64 value, so the search does not come
    to the last case, which is there to make the function total. *)
Definition shortest (m : positive) (e : Z) : Z * Z :=
  match search 17 m e (exp10 (Z.pos m) e) 1 with
  | Some r => r
  | None => exact_decimal m e
  end.

Definition number_to_string (x : number) : string :=
  match x with
  | NaN => "NaN"
  | Zero _ => "0"
  | Infinity neg => if neg then "-Infinity" else "Infinity"
  | Finite neg m e =>
      let '(s, q) := shortest m e in
      if neg then "-" ++ render s q else render s q
  end.

(** *** Values *)

Inductive value :=
| Undefined
| Null
| Bool (b : bool)
| Num (n : number)
| Str (s : string).

(** [ToString]: what [<empty string> + x] and the string built-ins apply to
    their argument. *)
Definition to_string (x : value) : string :=
  match x with
  | Undefined => "undefined"
  | Null => "null"
  | Bool b => if b then "true" else "false"
  | Num n => number_to_string n
  | Str s => s
  end.

(** [x == null] *)
Definition is_nullish (x : value) : bool :=
  match x with Undefined | Null => true | _ => false end.

(** [x === y] *)
Definition strict_eq (x y : value) : bool :=
  match x, y with
  | Undefined, Undefined => true
  | Null, Null => true
  | Bool a, Bool b => Bool.eqb a b
  | Num a, Num b => number_eqb a b
  | Str a, Str b => String.eqb a b
  | _, _ => false
  end.

(** The condition of [x ? a : b]. *)
Definition truthy (x : value) : bool :=
  match x with
  | Undefined | Null => false
  | Bool b => b
  | Num (NaN | Zero _) => false
  | Num _ => true
  | Str s => negb (is_empty s)
  end.

End JS.

Import JS.

(** A dictionary-shaped object: the fields of its own, under
    [Object.prototype].  For a name that [Object.prototype] does not
    define, [x[prop]] of a missing field is [undefined] and [x[prop] = v]
    adds or replaces the field; the names that it defines ([inherited]
    below) are read and assigned through the prototype, and the statements
    that range over field names say where they leave them out. *)
Abbreviation record := (gmap string value).

(** The names that [Object.prototype] defines. *)
Definition inherited (name : string) : bool :=
  existsb (String.eqb name)
    [ "constructor"; "hasOwnProperty"; "isPrototypeOf"; "propertyIsEnumerable";
      "toLocaleString"; "toString"; "valueOf"; "__proto__";
      "__defineGetter__"; "__defineSetter__"; "__lookupGetter__"; "__lookupSetter__" ].

(** [x[prop]] for a name that [x] has as a field of its own or that
    [Object.prototype] does not define, which covers every name of the
    schemas and of the merge in the source. *)
Definition get (x : record) (prop : string) : value :=
  default Undefined (x !! prop).

(** ** The coercion tables *)

Module PARSER.

Definition int (x : value) : value :=
  if is_nullish x then Num (Zero false) else Num (parseInt (to_string x)).

Definition temperature (x : value) : value :=
  if is_nullish x || strict_eq x (Str "-") || strict_eq x (Str "--")
  then Null else Num (parseFloat (to_string x)).

Definition default (x : value) : value := x.

Definition bool (x : value) : value :=
  Bool (strict_eq x (Str "true") || strict_eq x (Num one) || strict_eq x (Bool true)).

End PARSER.

Module FORMATTER.

Definition int (x : value) : value := Str (to_string (PARSER.int x)).

Definition temperature (x : value) : value := Str (to_string (PARSER.temperature x)).

Definition default (x : value) : value := x.

Definition bool (x : value) : value :=
  if truthy (PARSER.bool x) then Str "1" else Str "0".

End FORMATTER.

(** [type Format = 'int' | 'temperature' | 'bool' | 'default'] *)
Inductive Format := Int | Temperature | Boolean | Default.

Definition PARSER (format : Format) : value -> value :=
  match format with
  | Int => PARSER.int
  | Temperature => PARSER.temperature
  | Boolean => PARSER.bool
  | Default => PARSER.default
  end.

Definition FORMATTER (format : Format) : value -> value :=
  match format with
  | Int => FORMATTER.int
  | Temperature => FORMATTER.temperature
  | Boolean => FORMATTER.bool
  | Default => FORMATTER.default
  end.

(** ** The field mapper *)

(** A coercion schema: the kinds in the order of [Object.keys], each with
    its list of field names. *)
Abbreviation schema := (list (Format * list string)).

(** Both directions read and assign [x[prop]] for the listed names; the
    schemas of the source list none that [Object.prototype] defines. *)
Definition parse_data (x : record) (formats : schema) : record :=
  foldl (fun x '(format, props) =>
           let lambda := PARSER format in
           foldl (fun x prop => <[prop := lambda (get x prop)]> x) x props)
        x formats.

Definition format_data (x : record) (formats : schema) : record :=
  foldl (fun x '(format, props) =>
           let lambda := FORMATTER format in
           foldl (fun x prop => <[prop := lambda (get x prop)]> x) x
                 (List.filter (fun prop => negb (is_nullish (get x prop))) props))
        x formats.

Definition parse_sensor_info (x : record) : record :=
  let integers := ["err"] in
  let temps := ["hhum"; "htemp"; "otemp"] in
  parse_data x [(Int, integers); (Temperature, temps)].

Definition ctrl_formats : schema :=
  [ (Int, ["alert"; "mode"; "b_mode"]);
    (Temperature, ["shum"; "stemp"; "b_shum"]);
    (Boolean, ["pow"]) ].

Definition parse_control_info (x : record) : record := parse_data x ctrl_formats.

Definition format_control_info (x : record) : record := format_data x ctrl_formats.

(** ** The response decoder *)

Definition RET_MSG_OK : string := "OK".
Definition RET_MSG_PARAM_NG : string := "PARAM NG".
Definition RET_MSG_ADV_NG : string := "ADV_NG".

(** What a call can throw or a promise be rejected with: an [Error] with
    its message, the [URIError] of [decodeURIComponent], or the error value
    of the transport. *)
Inductive exn :=
| Error (msg : string)
| URIError
| Rejected (err : string).

Inductive result (A : Type) :=
| Ok (a : A)
| Throw (e : exn).
Arguments Ok {A} a.
Arguments Throw {A} e.

(** The failures of the decoder under the names of the specification. *)
Definition MalformedResponse : exn := Error "Unrecognized data format for the response".
Definition InvalidParameters : exn := Error "Wrong parameters".
Definition AdvancedError : exn := Error "Wrong ADV".
Definition UnknownStatus (ret_msg : string) : exn :=
  Error ("Unrecognized return message: '" ++ ret_msg ++ "'").

(** [s.split('=').map(decodeURIComponent)] *)
Definition decode_part (s : string) : option (list string) :=
  mapM decodeURIComponent (split "=" s).

(** [r[x[0]] = x[1]].  [r] starts without fields and never gets one of the
    name [__proto__]: the assignment to that name reaches the setter that
    [Object.prototype] defines, which stores nothing when it is given a
    string. *)
Definition put_pair (r : record) (x : list string) : record :=
  let key := to_string (from_option Str Undefined (x !! 0%nat)) in
  if String.eqb key "__proto__" then r
  else <[ key := from_option Str Undefined (x !! 1%nat) ]> r.

(** [.slice(1).map(...).filter(x => x.length === 2).forEach(...)] *)
Definition decode_fields (parts : list string) : result record :=
  match mapM decode_part parts with
  | None => Throw URIError
  | Some xs =>
      Ok (foldl put_pair ∅ (List.filter (fun x => Nat.eqb (length x) 2) xs))
  end.

(** The callback that turns the body of a response into a record. *)
Definition decode_response (response : string) : result record :=
  let rsp := split "," response in
  match rsp with
  | [] => Throw MalformedResponse
  | part0 :: rest =>
      if negb (indexOf "ret=" part0 =? 0) then Throw MalformedResponse
      else
        let ret_msg := substr 4 part0 in
        if String.eqb ret_msg RET_MSG_PARAM_NG then Throw InvalidParameters
        else if String.eqb ret_msg RET_MSG_ADV_NG then Throw AdvancedError
        else if negb (String.eqb ret_msg RET_MSG_OK) then Throw (UnknownStatus ret_msg)
        else decode_fields rest
  end.

(** ** Requests *)

Record request := {
  uri : string;
  headers : option record;
  qs : option record
}.

(** What the transport hands to its callback: an error or the body. *)
Inductive reply :=
| Failed (err : string)
| Body (data : string).

(** A computation that sends requests: from the requests sent so far to a
    result and the requests sent after it. *)
Definition io (A : Type) : Type := list request -> result A * list request.

Definition ret {A} (a : A) : io A := fun log => (Ok a, log).

Definition throw {A} (e : exn) : io A := fun log => (Throw e, log).

(** [p.then(f)]: [f] runs only when [p] is fulfilled. *)
Definition bind {A B} (p : io A) (f : A -> io B) : io B :=
  fun log =>
    match p log with
    | (Ok a, log') => f a log'
    | (Throw e, log') => (Throw e, log')
    end.

Notation "p >>= f" := (bind p f) (at level 50, left associativity).

Section Aircon.

(** The configured host ([None] for [null]) and the transport, whose reply
    may depend on the requests sent before. *)
Variable host : option string.
Variable transport : list request -> request -> reply.

Definition send_request (method url : string) (params headers : option record)
  : io record :=
  match host with
  | None => throw (Error "Host is required")
  | Some h =>
      if is_empty h then throw (Error "Host is required")
      else if negb (String.eqb method "GET")
      then throw (Error ("Target method " ++ method ++ " is not implemented"))
      else fun log =>
        let req := {| uri := "http://" ++ h ++ url; headers := headers; qs := params |} in
        match transport log req with
        | Failed err => (Throw (Rejected err), (log ++ [req])%list)
        | Body response => (decode_response response, (log ++ [req])%list)
        end
  end.

Definition reboot : io record :=
  send_request "GET" "/common/reboot" None None.

Definition get_raw_control_info : io record :=
  send_request "GET" "/aircon/get_control_info" None None.

Definition get_sensor_info : io record :=
  send_request "GET" "/aircon/get_sensor_info" None None
  >>= (fun x => ret (parse_sensor_info x)).

Definition get_control_info : io record :=
  get_raw_control_info >>= (fun x => ret (parse_control_info x)).

(** [Object.assign(target, source)]: [target[k] = source[k]] for every field
    of [source].  For the name [__proto__] the assignment reaches the setter
    that [Object.prototype] defines, unless [target] has a field of that
    name, and gives [target] no field. *)
Definition assign (target source : record) : record :=
  match target !! "__proto__" with
  | Some _ => source ∪ target
  | None => delete "__proto__" source ∪ target
  end.

Definition minimal_state (current : record) : record :=
  foldl (fun minimal_state x => <[x := get current x]> minimal_state) ∅
        ["pow"; "mode"; "stemp"; "shum"; "f_rate"; "f_dir"].

(** The formatting is done on the object of the caller, which is left as
    [format_control_info params]. *)
Definition set_control_info (params : record) : io record :=
  let params := format_control_info params in
  get_raw_control_info
  >>= (fun current => ret (assign (minimal_state current) params))
  >>= (fun params => send_request "GET" "/aircon/set_control_info" (Some params) None).

End Aircon.

(** ** Vocabulary of the statements *)

(** [contains c s]: the character [c] occurs in [s]. *)
Fixpoint contains (c : ascii) (s : string) : bool :=
  match s with
  | EmptyString => false
  | String a s' => Ascii.eqb a c || contains c s'
  end.

(** The text that follows the first part of a payload: each further part
    after a comma. *)
Fixpoint join_parts (parts : list string) : string :=
  match parts with
  | [] => EmptyString
  | p :: ps => "," ++ p ++ join_parts ps
  end.

(** What one part adds to the record when each piece of it decodes: a part
    of exactly two pieces sets its key, unless the key is [__proto__], and
    any other part is dropped. *)
Definition keep_or_drop (r : record) (part : string) : record :=
  match split "=" part with
  | [k; v] =>
      match decodeURIComponent k, decodeURIComponent v with
      | Some k', Some v' =>
          if String.eqb k' "__proto__" then r else <[k' := Str v']> r
      | _, _ => r
      end
  | _ => r
  end.

(** The specification's reading of a part: cut at the first [=] only. *)
Fixpoint cut_first (sep : ascii) (s : string) : option (string * string) :=
  match s with
  | EmptyString => None
  | String c s' =>
      if Ascii.eqb c sep then Some (EmptyString, s')
      else match cut_first sep s' with
           | Some (k, v) => Some (String c k, v)
           | None => None
           end
  end.

Definition spec_keep_or_drop (r : record) (part : string) : record :=
  match cut_first "=" part with
  | Some (k, v) =>
      match decodeURIComponent k, decodeURIComponent v with
      | Some k', Some v' => <[k' := Str v']> r
      | _, _ => r
      end
  | None => r
  end.

Definition six_fields : list string :=
  ["pow"; "mode"; "stemp"; "shum"; "f_rate"; "f_dir"].

Definition fetch_request (h : string) : request :=
  {| uri := "http://" ++ h ++ "/aircon/get_control_info"; headers := None; qs := None |}.

Definition write_request (h : string) (params : record) : request :=
  {| uri := "http://" ++ h ++ "/aircon/set_control_info"; headers := None;
     qs := Some params |}.

(** A control state as the appliance reports it, and its decoded record. *)
Definition sample_response : string :=
  "ret=OK,pow=1,mode=3,stemp=24.0,shum=0,f_rate=A,f_dir=0".

Definition sample_current : record :=
  <["f_dir" := Str "0"]> (<["f_rate" := Str "A"]> (<["shum" := Str "0"]>
  (<["stemp" := Str "24.0"]> (<["mode" := Str "3"]> (<["pow" := Str "1"]> ∅))))).

(** Every character of [s] is a decimal digit. *)
Fixpoint all_digits (s : string) : bool :=
  match s with
  | EmptyString => true
  | String c s' => is_digit c && all_digits s'
  end.

(** [s] does not go on with a digit. *)
Definition stops (s : string) : bool :=
  match s with
  | EmptyString => true
  | String c _ => negb (is_digit c)
  end.

(** The same Number, a zero of either sign counting as the same zero. *)
Definition same_number (x y : number) : Prop :=
  x = y \/ exists a b, x = Zero a /\ y = Zero b.

(** [w] with the sign of a zero forgotten: what reading the text of [w]
    gives. *)
Definition unsigned_zero (w : number) : number :=
  match w with Zero _ => Zero false | _ => w end.

(** What may follow the digits of a decimal that [render] writes: nothing,
    or an exponent part. *)
Definition exponent_or_end (r2 : string) : Prop :=
  r2 = EmptyString \/ exists r, r2 = String "e" r.

(** A value of the binary64 format. *)
Definition binary64 (x : number) : Prop :=
  match x with
  | Finite _ m e => canonical m e
  | _ => True
  end.


(** ** Basic information *)

(** The characters that [decodeURI] leaves escaped: [;/?:@&=+$,#]. *)
Definition uri_reserved (b : Z) : bool :=
  existsb (Z.eqb b) [59; 47; 63; 58; 64; 38; 61; 43; 36; 44; 35].

(** [decodeURI]: as [decodeURIComponent], but the escape of a reserved
    character is kept as it is written.  [None] stands for the [URIError]. *)
Fixpoint decodeURI_from (st : utf8_state) (s : string) : option string :=
  match s with
  | EmptyString => match st with Idle => Some EmptyString | Pending _ _ => None end
  | String c rest =>
      if Ascii.eqb c "%" then
        match rest with
        | String h (String l rest') =>
            match hex_value h, hex_value l with
            | Some a, Some b =>
                let B := 16 * a + b in
                match st with
                | Idle =>
                    if B <? 128 then
                      if uri_reserved B
                      then (fun t => String c (String h (String l t)))
                             <$> decodeURI_from Idle rest'
                      else String (byte_char B) <$> decodeURI_from Idle rest'
                    else match utf8_width B with
                         | Some (S n) => decodeURI_from (Pending n [B]) rest'
                         | _ => None
                         end
                | Pending n octets =>
                    if Z.land B 192 =? 128 then
                      match n with
                      | S (S n') => decodeURI_from (Pending (S n') (octets ++ [B])) rest'
                      | _ =>
                          match utf8_code_point (octets ++ [B]) with
                          | Some _ => emit (octets ++ [B]) <$> decodeURI_from Idle rest'
                          | None => None
                          end
                      end
                    else None
                end
            | _, _ => None
            end
        | _ => None
        end
      else match st with
           | Idle => String c <$> decodeURI_from Idle rest
           | Pending _ _ => None
           end
  end.

Definition decodeURI (s : string) : option string := decodeURI_from Idle s.

(** [x['name'] = decodeURI(x['name'])], then the field mapper. *)
Definition parse_basic_info (x : record) : result record :=
  let integers := ["port"; "err"; "pv"] in
  let booleans := ["pow"; "led"] in
  match decodeURI (to_string (get x "name")) with
  | None => Throw URIError
  | Some name =>
      Ok (parse_data (<["name" := Str name]> x) [(Int, integers); (Boolean, booleans)])
  end.

(** [p.then(f)] for a callback [f] that returns a value or throws. *)
Definition then_call {A B} (p : io A) (f : A -> result B) : io B :=
  bind p (fun a log => (f a, log)).

Definition get_basic_info (host : option string)
  (transport : list request -> request -> reply) : io record :=
  then_call (send_request host transport "GET" "/common/basic_info" None None)
            parse_basic_info.

(** ** Vocabulary of the further statements *)

(** A text that travels as it is: no comma, no [=], no [%]. *)
Definition plain (s : string) : bool :=
  negb (contains "," s) && negb (contains "=" s) && negb (contains "%" s).

(** The part that carries the field [k] with the value [v]. *)
Definition pair_text (kv : string * string) : string :=
  fst kv ++ "=" ++ snd kv.

(** All the fields that a schema lists. *)
Definition listed (formats : schema) : list string :=
  concat (map snd formats).

(** The integer that a Number is, when it is one. *)
Definition is_integer (w : number) (z : Z) : Prop :=
  match w with
  | Zero _ => z = 0
  | Finite neg m e =>
      (if neg then - Z.pos m else Z.pos m) * 2 ^ Z.max 0 e = z * 2 ^ Z.max 0 (- e)
  | _ => False
  end.

(** No host is configured. *)
Definition no_host (host : option string) : Prop :=
  host = None \/ host = Some EmptyString.

(** A request without query parameters. *)
Definition get_request (h url : string) : request :=
  {| uri := "http://" ++ h ++ url; headers := None; qs := None |}.

(** ** Properties of the string built-ins *)

Lemma split_not_nil sep s : split sep s <> [].
Proof.
  destruct s as [|c s]; simpl; [discriminate|].
  destruct (Ascii.eqb c sep); [discriminate|].
  destruct (split sep s); discriminate.
Qed.

Lemma split_without sep s : contains sep s = false -> split sep s = [s].
Proof.
  induction s as [|c s IH]; simpl; [reflexivity|].
  intros H. apply orb_false_iff in H as [Hc Hs].
  rewrite Hc, (IH Hs). reflexivity.
Qed.

Lemma split_at_first sep a b :
  contains sep a = false -> split sep (a ++ String sep b) = a :: split sep b.
Proof.
  induction a as [|c a IH]; simpl.
  - intros _. rewrite Ascii.eqb_refl. reflexivity.
  - intros H. apply orb_false_iff in H as [Hc Ha].
    rewrite Hc, (IH Ha). reflexivity.
Qed.

Lemma append_empty (s : string) : s ++ "" = s.
Proof.
  induction s as [|c s IH]; [reflexivity|].
  change (String c (s ++ "") = String c s). now rewrite IH.
Qed.

Lemma split_join first parts :
  contains "," first = false ->
  Forall (fun p => contains "," p = false) parts ->
  split "," (first ++ join_parts parts) = first :: parts.
Proof.
  intros Hf Hp. revert first Hf.
  induction Hp as [|p ps Hp _ IH]; intros first Hf; cbn [join_parts].
  - rewrite append_empty. now apply split_without.
  - change ("," ++ p ++ join_parts ps) with (String "," (p ++ join_parts ps)).
    rewrite split_at_first by assumption. now rewrite IH.
Qed.

Lemma indexOf_lower sub s : -1 <= indexOf sub s.
Proof.
  induction s as [|c s IH]; cbn [indexOf].
  - destruct (starts_with sub ""); lia.
  - destruct (starts_with sub (String c s)); [lia|].
    destruct (indexOf sub s =? -1) eqn:E; lia.
Qed.

Lemma indexOf_0 sub s : indexOf sub s = 0 <-> starts_with sub s = true.
Proof.
  destruct s as [|c s]; cbn [indexOf].
  - destruct (starts_with sub ""); split; intros; try reflexivity; try lia; discriminate.
  - destruct (starts_with sub (String c s)); split; intros H; try reflexivity; try discriminate.
    pose proof (indexOf_lower sub s).
    destruct (indexOf sub s =? -1) eqn:E; lia.
Qed.

(** ** The response decoder *)

Lemma decode_fields_fused parts xs r :
  mapM decode_part parts = Some xs ->
  foldl put_pair r (List.filter (fun x => Nat.eqb (length x) 2) xs)
  = foldl keep_or_drop r parts.
Proof.
  revert xs r. induction parts as [|p ps IH]; intros xs r H.
  - cbn in H. injection H as <-. reflexivity.
  - rewrite mapM_Some in H. inversion H as [|? x ? xs' Hx Hxs]; subst.
    apply mapM_Some in Hxs. cbn [foldl List.filter].
    unfold keep_or_drop at 2. unfold decode_part in Hx.
    destruct (split "=" p) as [|k [|v [|w t]]] eqn:Es; cbn in Hx.
    + injection Hx as <-. cbn. now apply IH.
    + destruct (decodeURIComponent k); [|discriminate].
      injection Hx as <-. cbn. now apply IH.
    + destruct (decodeURIComponent k) as [k'|]; [|discriminate].
      destruct (decodeURIComponent v) as [v'|]; [|discriminate].
      injection Hx as <-. cbn. now apply IH.
    + destruct (decodeURIComponent k) as [k'|]; [|discriminate].
      destruct (decodeURIComponent v) as [v'|]; [|discriminate].
      destruct (decodeURIComponent w) as [w'|]; [|discriminate].
      destruct (mapM decodeURIComponent t) as [t'|]; [|discriminate].
      injection Hx as <-. cbn. now apply IH.
Qed.

(** C8. A payload whose first comma-separated part does not begin with
    [ret=] is rejected as malformed, whatever follows the first part; the
    empty payload is one of them. *)
Theorem decode_rejects_missing_prefix (first rest response : string) :
  contains "," first = false ->
  response = first \/ response = first ++ "," ++ rest ->
  starts_with "ret=" first = false ->
  decode_response response = Throw MalformedResponse.
Proof.
  intros Hc Hr Hp. unfold decode_response.
  assert (Hs : exists tl, split "," response = first :: tl).
  { destruct Hr as [-> | ->].
    - exists []. now apply split_without.
    - eexists. now apply split_at_first. }
  destruct Hs as [tl ->].
  destruct (indexOf "ret=" first =? 0) eqn:E; [|reflexivity].
  apply Z.eqb_eq, indexOf_0 in E. congruence.
Qed.

Lemma decode_rejects_missing_prefix_witness :
  decode_response "" = Throw MalformedResponse
  /\ decode_response "pow=1,ret=OK" = Throw MalformedResponse.
Proof.
  split.
  - apply (decode_rejects_missing_prefix "" "" ""); [reflexivity | now left | reflexivity].
  - apply (decode_rejects_missing_prefix "pow=1" "ret=OK");
      [reflexivity | now right | reflexivity].
Defined.

Lemma decode_fields_not_error parts msg : decode_fields parts <> Throw (Error msg).
Proof. unfold decode_fields. destruct (mapM decode_part parts); discriminate. Qed.

(** C3. For a payload whose first part is [ret=] followed by a status
    token: the decoder fails with [InvalidParameters] exactly when the token
    is [PARAM NG], with [AdvancedError] exactly when it is [ADV_NG], with
    [UnknownStatus] for every other token that is not [OK], and yields a
    record only when the token is [OK]. *)
Theorem decode_status (token tail : string) :
  contains "," token = false ->
  tail = "" \/ (exists t, tail = "," ++ t) ->
  let response := "ret=" ++ token ++ tail in
  (decode_response response = Throw InvalidParameters <-> token = "PARAM NG")
  /\ (decode_response response = Throw AdvancedError <-> token = "ADV_NG")
  /\ (token <> "PARAM NG" -> token <> "ADV_NG" -> token <> "OK" ->
      decode_response response = Throw (UnknownStatus token))
  /\ (forall r, decode_response response = Ok r -> token = "OK").
Proof.
  intros Hc Ht response.
  assert (Hs : exists tl, split "," response = ("ret=" ++ token) :: tl).
  { subst response. destruct Ht as [-> | [t ->]].
    - exists []. rewrite append_empty. now apply split_without.
    - eexists. change ("ret=" ++ token ++ "," ++ t)
        with (("ret=" ++ token) ++ String "," t).
      now apply split_at_first. }
  destruct Hs as [tl Hs]. unfold decode_response. rewrite Hs. clear Hs.
  change (indexOf "ret=" ("ret=" ++ token) =? 0) with true.
  change (substr 4 ("ret=" ++ token)) with token. cbn [negb].
  unfold RET_MSG_PARAM_NG, RET_MSG_ADV_NG, RET_MSG_OK.
  destruct (String.eqb_spec token "PARAM NG") as [->|Hp].
  { repeat split; try reflexivity; try discriminate; intros; congruence. }
  destruct (String.eqb_spec token "ADV_NG") as [->|Ha].
  { repeat split; try reflexivity; try discriminate; intros; congruence. }
  destruct (String.eqb_spec token "OK") as [->|Ho]; cbn [negb].
  - repeat split; try reflexivity; try discriminate; try congruence;
      intros H; now apply decode_fields_not_error in H.
  - repeat split; try reflexivity; try discriminate; try congruence.
Qed.

Lemma decode_status_witness :
  decode_response "ret=PARAM NG,pow=1" = Throw InvalidParameters
  /\ decode_response "ret=BUSY" = Throw (UnknownStatus "BUSY").
Proof.
  split.
  - apply (decode_status "PARAM NG" ",pow=1");
      [reflexivity | right; now exists "pow=1" | reflexivity].
  - apply (decode_status "BUSY" ""); [reflexivity | now left | | |]; discriminate.
Defined.

(** C4, as the specification words it, fails: the part [a=b=c] is cut at
    every [=], gives three pieces and is dropped, where a cut at the first
    [=] only would keep it under the key [a] with the value [b=c].  And a
    part is decoded before it is counted: one without [=] whose text is not
    a percent-encoding is not dropped, the decoder fails on it.  And a part
    of two pieces whose key is [__proto__] maps nothing. *)
Lemma decode_drops_second_equals :
  foldl spec_keep_or_drop ∅ ["a=b=c"] = {[ "a" := Str "b=c" ]}
  /\ decode_response "ret=OK,a=b=c" = Ok ∅
  /\ decode_response "ret=OK,%" = Throw URIError
  /\ decode_response "ret=OK,__proto__=x" = Ok ∅.
Proof. repeat split. Qed.

(** C4, amended. In a payload of status [OK] of which every piece between
    [=] signs percent-decodes, each part after the first is cut at every
    [=]: a part that does not give exactly two pieces is dropped, and a part
    of two pieces maps its decoded key to its decoded value, a later part
    replacing an earlier one of the same key; a part whose decoded key is
    [__proto__] is the exception, it maps nothing. *)
Theorem decode_ok_fields (parts : list string) :
  Forall (fun p => contains "," p = false) parts ->
  Forall (fun p => Forall (fun piece => is_Some (decodeURIComponent piece))
                          (split "=" p)) parts ->
  decode_response ("ret=OK" ++ join_parts parts) = Ok (foldl keep_or_drop ∅ parts).
Proof.
  intros Hc Hd. unfold decode_response.
  rewrite split_join by (assumption || reflexivity).
  cbn -[decode_fields]. unfold decode_fields.
  destruct (mapM decode_part parts) as [xs|] eqn:E.
  - f_equal. now apply decode_fields_fused.
  - exfalso. apply mapM_None in E. apply Exists_exists in E as (p & Hin & Hp).
    rewrite Forall_forall in Hd. specialize (Hd p Hin).
    unfold decode_part in Hp. apply mapM_None in Hp.
    apply Exists_exists in Hp as (piece & Hin' & Hpiece).
    rewrite Forall_forall in Hd. specialize (Hd piece Hin').
    rewrite Hpiece in Hd. now destruct Hd.
Qed.

Lemma decode_ok_fields_witness :
  decode_response "ret=OK,pow=1,a=b=c,junk,__proto__=x,a=b%3Dc"
  = Ok (<["a" := Str "b=c"]> (<["pow" := Str "1"]> ∅)).
Proof.
  apply (decode_ok_fields ["pow=1"; "a=b=c"; "junk"; "__proto__=x"; "a=b%3Dc"]).
  - repeat constructor.
  - repeat constructor; cbn; eauto.
Defined.

(** ** The field mapper *)

Lemma fold_fields_frame (lambda : value -> value) (field : string)
  (props : list string) (x : record) :
  ~ In field props ->
  foldl (fun x prop => <[prop := lambda (get x prop)]> x) x props !! field = x !! field.
Proof.
  revert x. induction props as [|p ps IH]; intros x Hn; cbn [foldl]; [reflexivity|].
  rewrite IH by (intros H; apply Hn; now right).
  apply lookup_insert_ne. intros ->. apply Hn. now left.
Qed.

(** C9. The field mapper, in the parse direction and in the format
    direction, leaves every field that no kind of the schema lists as it
    was. *)
Theorem mapper_frame (x : record) (formats : schema) (field : string) :
  (forall format props, In (format, props) formats -> ~ In field props) ->
  parse_data x formats !! field = x !! field
  /\ format_data x formats !! field = x !! field.
Proof.
  unfold parse_data, format_data. revert x.
  induction formats as [|[format props] fs IH]; intros x Hn; cbn [foldl]; [now split|].
  assert (Hp : ~ In field props) by (apply (Hn format); now left).
  assert (Hfs : forall format props, In (format, props) fs -> ~ In field props)
    by (intros f' p' H; apply (Hn f'); now right).
  split.
  - rewrite (proj1 (IH _ Hfs)). now apply fold_fields_frame.
  - rewrite (proj2 (IH _ Hfs)). apply fold_fields_frame.
    intros H. apply Hp. apply List.filter_In in H. tauto.
Qed.

Ltac not_listed :=
  let H := fresh in
  intros ? ? H; cbn in H;
  repeat (destruct H as [H|H]; [injection H as <- <-; cbn; intuition discriminate|]);
  contradiction.

Lemma mapper_frame_witness :
  parse_control_info {[ "f_rate" := Str "A"; "pow" := Str "1" ]} !! "f_rate" = Some (Str "A")
  /\ format_control_info {[ "f_rate" := Str "A"; "pow" := Bool true ]} !! "f_rate"
     = Some (Str "A").
Proof.
  unfold parse_control_info, format_control_info. split.
  - rewrite (proj1 (mapper_frame _ ctrl_formats "f_rate" ltac:(not_listed))).
    reflexivity.
  - rewrite (proj2 (mapper_frame _ ctrl_formats "f_rate" ltac:(not_listed))).
    reflexivity.
Defined.

(** The formatter sets only fields that the record already has. *)
Lemma fold_fields_present (lambda : value -> value) (props : list string) (x : record) k :
  Forall (fun p => is_Some (x !! p)) props ->
  foldl (fun x prop => <[prop := lambda (get x prop)]> x) x props !! k = None
  <-> x !! k = None.
Proof.
  revert x. induction props as [|p ps IH]; intros x Hp; cbn [foldl]; [reflexivity|].
  apply Forall_cons in Hp as [[v Hv] Hps].
  rewrite IH.
  - destruct (decide (p = k)) as [->|Hne].
    + rewrite lookup_insert_eq, Hv. split; discriminate.
    + now rewrite lookup_insert_ne.
  - eapply Forall_impl; [exact Hps|]. intros q [w Hq]. cbn.
    destruct (decide (p = q)) as [->|Hne].
    + rewrite lookup_insert_eq. eauto.
    + rewrite lookup_insert_ne by assumption. eauto.
Qed.

Lemma format_data_keys (x : record) (formats : schema) k :
  format_data x formats !! k = None <-> x !! k = None.
Proof.
  unfold format_data. revert x.
  induction formats as [|[format props] fs IH]; intros x; cbn [foldl]; [reflexivity|].
  rewrite IH. apply fold_fields_present.
  apply Forall_forall. intros p Hin. apply list_elem_of_In, List.filter_In in Hin as [_ Hin].
  unfold get in Hin. destruct (x !! p); [eauto | discriminate].
Qed.

(** ** The read-modify-write merge *)

Lemma fold_copy_lookup (g : string -> value) (l : list string) (m : record) k :
  foldl (fun m x => <[x := g x]> m) m l !! k
  = if decide (k ∈ l) then Some (g k) else m !! k.
Proof.
  revert m. induction l as [|a l IH]; intros m; cbn [foldl].
  - destruct (decide (k ∈ [])) as [H|]; [|reflexivity]. now apply elem_of_nil in H.
  - rewrite IH. destruct (decide (k ∈ l)) as [Hl|Hl].
    + destruct (decide (k ∈ a :: l)) as [|Hn]; [reflexivity|].
      exfalso. apply Hn. apply elem_of_cons. now right.
    + destruct (decide (a = k)) as [->|Hne].
      * rewrite lookup_insert_eq.
        destruct (decide (k ∈ k :: l)) as [|Hn]; [reflexivity|].
        exfalso. apply Hn. apply elem_of_cons. now left.
      * rewrite lookup_insert_ne by assumption.
        destruct (decide (k ∈ a :: l)) as [Hin|]; [|reflexivity].
        apply elem_of_cons in Hin as [->|Hin]; [congruence | contradiction].
Qed.

Lemma minimal_state_lookup (current : record) k :
  minimal_state current !! k
  = if decide (k ∈ six_fields) then Some (get current k) else None.
Proof.
  unfold minimal_state. rewrite (fold_copy_lookup (get current)).
  now destruct (decide (k ∈ _)).
Qed.

Lemma send_request_get h transport url params log :
  is_empty h = false ->
  send_request (Some h) transport "GET" url params None log
  = (match transport log {| uri := "http://" ++ h ++ url; headers := None; qs := params |} with
     | Failed err => Throw (Rejected err)
     | Body response => decode_response response
     end,
     (log ++ [{| uri := "http://" ++ h ++ url; headers := None; qs := params |}])%list).
Proof.
  intros Hh. unfold send_request. rewrite Hh.
  change (String.eqb "GET" "GET") with true. cbn [negb].
  now destruct (transport log _).
Qed.

Lemma minimal_state_fields (current : record) k :
  minimal_state current !! k
  = if decide (k ∈ six_fields) then Some (default Undefined (current !! k)) else None.
Proof. apply minimal_state_lookup. Qed.

Lemma minimal_state_no_proto (current : record) :
  minimal_state current !! "__proto__" = None.
Proof.
  rewrite minimal_state_fields. destruct (decide (_ ∈ six_fields)) as [H|]; [|reflexivity].
  exfalso. revert H. apply (bool_decide_unpack _). vm_compute. exact I.
Qed.

Lemma assign_lookup (target source : record) k :
  target !! "__proto__" = None ->
  assign target source !! k
  = if decide (k = "__proto__") then None
    else match source !! k with Some v => Some v | None => target !! k end.
Proof.
  intros Ht. unfold assign. rewrite Ht, lookup_union.
  destruct (decide (k = "__proto__")) as [->|Hne].
  - now rewrite lookup_delete_eq, Ht.
  - rewrite lookup_delete_ne by congruence.
    destruct (source !! k), (target !! k); reflexivity.
Qed.

(** C1, as the specification words it, fails for a change set that has a
    field of the name [__proto__]: the field is in the formatted change
    set, and the write goes out without it. *)
Lemma merge_leaves_out_proto :
  let changes : record := {[ "__proto__" := Str "x" ]} in
  format_control_info changes !! "__proto__" = Some (Str "x")
  /\ snd (set_control_info (Some "aircon.local") (fun _ _ => Body sample_response)
                           changes [])
     = [ fetch_request "aircon.local";
         write_request "aircon.local" (minimal_state sample_current) ]
  /\ minimal_state sample_current !! "__proto__" = None.
Proof. repeat split; vm_compute; reflexivity. Qed.

(** C1, amended. When the fetch of the current control state succeeds,
    exactly two requests are sent, the fetch and then the write, and the
    write carries the six fields copied from the current raw state,
    overwritten by every key of the formatted change set other than
    [__proto__], which it never carries; a field of the six that the caller
    did not give keeps the value that the current state has for it. *)
Theorem set_control_info_merge
  (h : string) (transport : list request -> request -> reply)
  (changes current : record) (response : string) (log : list request) :
  is_empty h = false ->
  transport log (fetch_request h) = Body response ->
  decode_response response = Ok current ->
  exists submitted : record,
    snd (set_control_info (Some h) transport changes log)
    = (log ++ [fetch_request h; write_request h submitted])%list
    /\ (forall k, k <> "__proto__" ->
          submitted !! k =
          match format_control_info changes !! k with
          | Some v => Some v
          | None => if decide (k ∈ six_fields)
                    then Some (default Undefined (current !! k)) else None
          end)
    /\ submitted !! "__proto__" = None
    /\ (forall k, k ∈ six_fields -> changes !! k = None ->
          submitted !! k = Some (default Undefined (current !! k))).
Proof.
  intros Hh Ht Hd.
  set (formatted := format_control_info changes).
  set (submitted := assign (minimal_state current) formatted).
  assert (Hk : forall k, k <> "__proto__" -> submitted !! k =
        match formatted !! k with
        | Some v => Some v
        | None => if decide (k ∈ six_fields)
                  then Some (default Undefined (current !! k)) else None
        end).
  { intros k Hne. unfold submitted.
    rewrite assign_lookup by apply minimal_state_no_proto.
    destruct (decide (k = "__proto__")); [contradiction|].
    now rewrite minimal_state_fields. }
  exists submitted. split; [|split; [|split]].
  - unfold set_control_info, get_raw_control_info, bind, ret.
    rewrite send_request_get by assumption. fold (fetch_request h).
    rewrite Ht, Hd, send_request_get by assumption.
    fold formatted. fold submitted. fold (write_request h submitted).
    cbn [snd]. now rewrite <- app_assoc.
  - exact Hk.
  - unfold submitted. rewrite assign_lookup by apply minimal_state_no_proto.
    now destruct (decide ("__proto__" = "__proto__")).
  - intros k Hin Hc.
    assert (Hne : k <> "__proto__").
    { intros ->. revert Hin. apply (bool_decide_unpack _). vm_compute. exact I. }
    rewrite (Hk k Hne).
    assert (Hn : formatted !! k = None) by now apply format_data_keys.
    rewrite Hn. now destruct (decide (k ∈ six_fields)).
Qed.

(** C2. When the fetch of the current control state fails, by a transport
    error or by a decode error, [set_control_info] fails with that error
    and the only request sent is the fetch: no write is sent. *)
Theorem set_control_info_fetch_failure
  (h : string) (transport : list request -> request -> reply)
  (changes : record) (log : list request) (e : exn) :
  is_empty h = false ->
  (exists err, transport log (fetch_request h) = Failed err /\ e = Rejected err)
  \/ (exists response, transport log (fetch_request h) = Body response
                       /\ decode_response response = Throw e) ->
  set_control_info (Some h) transport changes log
  = (Throw e, (log ++ [fetch_request h])%list).
Proof.
  intros Hh Hf.
  unfold set_control_info, get_raw_control_info, bind, ret.
  rewrite send_request_get by assumption. fold (fetch_request h).
  destruct Hf as [(err & -> & ->) | (response & -> & ->)]; reflexivity.
Qed.

Lemma set_control_info_merge_witness :
  let transport := fun (_ : list request) (_ : request) => Body sample_response in
  let changes : record := {[ "stemp" := Str "26" ]} in
  exists submitted : record,
    snd (set_control_info (Some "aircon.local") transport changes [])
    = [ fetch_request "aircon.local"; write_request "aircon.local" submitted ]
    /\ submitted !! "pow" = Some (Str "1")
    /\ submitted !! "stemp" = Some (Str "26").
Proof.
  intros transport changes.
  destruct (set_control_info_merge "aircon.local" transport changes sample_current
              sample_response [] eq_refl eq_refl ltac:(vm_compute; reflexivity))
    as (submitted & Hlog & Hk & _ & Hsix).
  exists submitted. split; [exact Hlog|]. split.
  - rewrite Hsix; [reflexivity | | reflexivity].
    apply (bool_decide_unpack _). vm_compute. exact I.
  - rewrite Hk by discriminate. vm_compute. reflexivity.
Defined.

Lemma set_control_info_fetch_failure_witness :
  set_control_info (Some "aircon.local") (fun _ _ => Failed "ETIMEDOUT")
                   {[ "stemp" := Str "26" ]} []
  = (Throw (Rejected "ETIMEDOUT"), [fetch_request "aircon.local"])
  /\ set_control_info (Some "aircon.local") (fun _ _ => Body "ret=PARAM NG")
                      {[ "stemp" := Str "26" ]} []
     = (Throw InvalidParameters, [fetch_request "aircon.local"]).
Proof.
  split.
  - apply (set_control_info_fetch_failure "aircon.local" (fun _ _ => Failed "ETIMEDOUT"));
      [reflexivity | left; now exists "ETIMEDOUT"].
  - apply (set_control_info_fetch_failure "aircon.local" (fun _ _ => Body "ret=PARAM NG"));
      [reflexivity | right; now exists "ret=PARAM NG"].
Defined.

(** ** The coercion tables *)

(** C5. The round trip fails for the bool kind at the wire form of true:
    [PARSER.bool] compares with the number 1, a decoded field is the string
    [1], so the field parses to false and is written back as [0]. *)
Theorem bool_round_trip_breaks :
  PARSER.bool (Str "1") = Bool false
  /\ FORMATTER.bool (PARSER.bool (Str "1")) = Str "0"
  /\ FORMATTER.bool (Bool true) = Str "1".
Proof. repeat split. Qed.

(** The int kind does come back to the same text for decimal integers. *)
Example int_round_trip_samples :
  Forall (fun s => FORMATTER.int (PARSER.int (Str s)) = Str s) ["0"; "3"; "-12"; "65535"].
Proof. repeat constructor. Qed.

(** C10. The temperature formatter turns [null] into the four characters
    of the word null, not into a sentinel, and the parser reads that text
    as NaN, not as [null]. *)
Theorem temperature_format_null :
  FORMATTER.temperature Null = Str "null"
  /\ PARSER.temperature (FORMATTER.temperature Null) = Num NaN.
Proof. split; reflexivity. Qed.

(** C6, as the specification words it, fails at the sentinels and at
    [null]: they parse to [null], which is formatted as the word null and
    parsed again as NaN. *)
Lemma temperature_sentinel_not_stable :
  PARSER.temperature (Str "-") = Null
  /\ PARSER.temperature (FORMATTER.temperature (PARSER.temperature (Str "-"))) = Num NaN
  /\ PARSER.temperature (FORMATTER.temperature (PARSER.temperature (Str "--"))) = Num NaN
  /\ PARSER.temperature (FORMATTER.temperature (PARSER.temperature Null)) = Num NaN.
Proof. repeat split. Qed.










(** ** Numbers and their text *)

(** *** Rounding *)

Lemma pow2_pos z : 0 <= z -> 0 < 2 ^ z.
Proof. intros. now apply Z.pow_pos_nonneg. Qed.

(** The fraction of [scale2] against a common power of two. *)
Lemma scale2_norm a b E K :
  0 <= K -> 0 <= K + E ->
  exists P, 0 < P
    /\ fst (scale2 a b E) * 2 ^ (K + E) = a * 2 ^ K * P
    /\ snd (scale2 a b E) = b * P.
Proof.
  intros HK HKE. unfold scale2. cbn [fst snd].
  exists (2 ^ Z.max 0 E). split; [apply pow2_pos; lia|]. split; [|reflexivity].
  rewrite <- !Z.mul_assoc. f_equal. rewrite <- !Z.pow_add_r by lia. f_equal. lia.
Qed.

Lemma round_half_even_range num den :
  0 < den -> num / den <= round_half_even num den <= num / den + 1.
Proof.
  intros Hd. unfold round_half_even.
  destruct (2 * (num mod den) <? den); [lia|].
  destruct (den <? 2 * (num mod den)); [lia|].
  destruct (Z.even (num / den)); lia.
Qed.

Lemma round_half_even_exact m den : 0 < den -> round_half_even (m * den) den = m.
Proof.
  intros Hd. unfold round_half_even.
  rewrite Z.div_mul by lia. rewrite Z.mod_mul by lia.
  destruct (2 * 0 <? den) eqn:E; [reflexivity|]. apply Z.ltb_ge in E. lia.
Qed.

Lemma scale2_lt a b E c K :
  0 <= K -> 0 <= K + E ->
  fst (scale2 a b E) < snd (scale2 a b E) * c <-> a * 2 ^ K < b * 2 ^ (K + E) * c.
Proof.
  intros HK HKE. destruct (scale2_norm a b E K HK HKE) as (P & HP & Hn & ->).
  pose proof (pow2_pos (K + E) HKE) as HQ.
  rewrite (Z.mul_lt_mono_pos_r (2 ^ (K + E))) by assumption.
  rewrite Hn.
  replace (b * P * c * 2 ^ (K + E)) with (b * 2 ^ (K + E) * c * P) by ring.
  symmetry. apply Z.mul_lt_mono_pos_r. assumption.
Qed.

Lemma scale2_le a b E c K :
  0 <= K -> 0 <= K + E ->
  snd (scale2 a b E) * c <= fst (scale2 a b E) <-> b * 2 ^ (K + E) * c <= a * 2 ^ K.
Proof.
  intros HK HKE. pose proof (scale2_lt a b E c K HK HKE). lia.
Qed.

Lemma scale2_eq a b E c K :
  0 <= K -> 0 <= K + E ->
  fst (scale2 a b E) = snd (scale2 a b E) * c <-> a * 2 ^ K = b * 2 ^ (K + E) * c.
Proof.
  intros HK HKE. destruct (scale2_norm a b E K HK HKE) as (P & HP & Hn & ->).
  pose proof (pow2_pos (K + E) HKE) as HQ.
  split; intros H.
  - apply (Z.mul_cancel_r _ _ P); [lia|]. rewrite <- Hn, H. ring.
  - apply (Z.mul_cancel_r _ _ (2 ^ (K + E))); [lia|]. rewrite Hn, H. ring.
Qed.

Lemma scale2_pos a b E : 0 < a -> 0 < b -> 0 < fst (scale2 a b E) /\ 0 < snd (scale2 a b E).
Proof.
  intros Ha Hb. unfold scale2. cbn [fst snd].
  split; apply Z.mul_pos_pos; try assumption; apply pow2_pos; lia.
Qed.

Lemma binade_exp_spec a b K :
  0 < a -> 0 < b -> 0 <= K -> 0 <= K + binade_exp a b ->
  b * 2 ^ (K + binade_exp a b) * 2 ^ 52 <= a * 2 ^ K
  < b * 2 ^ (K + binade_exp a b) * 2 ^ 53.
Proof.
  intros Ha Hb HK. unfold binade_exp.
  set (E0 := Z.log2 a - Z.log2 b - 52).
  destruct (scale2 a b E0) as [n0 d0] eqn:Es.
  assert (Hn0 : n0 = fst (scale2 a b E0)) by now rewrite Es.
  assert (Hd0 : d0 = snd (scale2 a b E0)) by now rewrite Es.
  clear Es. subst n0 d0.
  pose proof (Z.log2_spec a Ha) as [Ha1 Ha2].
  pose proof (Z.log2_spec b Hb) as [Hb1 Hb2].
  pose proof (Z.log2_nonneg a) as Hla. pose proof (Z.log2_nonneg b) as Hlb.
  rewrite Z.pow_succ_r in Ha2, Hb2 by assumption.
  assert (Hpow : forall t, 0 <= t -> t = K + E0 - 1 ->
            2 ^ Z.log2 a * 2 ^ K = 2 ^ Z.log2 b * 2 ^ t * 2 ^ 53).
  { intros t Ht ->. rewrite <- !Z.pow_add_r by lia. f_equal. unfold E0. lia. }
  assert (Hpk : 0 < 2 ^ K) by now apply pow2_pos.
  assert (Hbounds : forall t, 0 <= t -> t = K + E0 - 1 ->
            b * (2 * 2 ^ t) * 2 ^ 51 < a * 2 ^ K < b * (2 * 2 ^ t) * 2 ^ 53).
  { intros t Ht Et. specialize (Hpow t Ht Et).
    pose proof (pow2_pos t Ht) as Hpt.
    set (A := 2 ^ Z.log2 a) in *. set (B := 2 ^ Z.log2 b) in *.
    set (pK := 2 ^ K) in *. set (pt := 2 ^ t) in *.
    change (2 ^ 51) with 2251799813685248. change (2 ^ 53) with 9007199254740992 in *.
    split; nia. }
  destruct (_ <? _ * 2 ^ 52) eqn:T; intros HKE.
  - apply Z.ltb_lt in T.
    apply (scale2_lt a b E0 _ K) in T; [|lia|lia].
    specialize (Hbounds (K + (E0 - 1)) HKE ltac:(lia)).
    replace (K + E0) with (Z.succ (K + (E0 - 1))) in T by lia.
    rewrite Z.pow_succ_r in T by lia.
    change (2 ^ 51) with 2251799813685248 in *. change (2 ^ 53) with 9007199254740992 in *.
    change (2 ^ 52) with 4503599627370496 in *.
    set (pt := 2 ^ (K + (E0 - 1))) in *. lia.
  - apply Z.ltb_ge in T.
    apply (scale2_le a b E0 _ K) in T; [|lia|lia].
    split; [exact T|].
    destruct (Z.eq_dec (K + E0) 0) as [E|E].
    + (* K + E0 = 0 *)
      rewrite E in *. change (2 ^ 0) with 1 in *.
      assert (2 ^ Z.log2 a * 2 ^ K * 2 = 2 ^ Z.log2 b * 2 ^ 53).
      { rewrite <- (Z.pow_1_r 2) at 3. rewrite <- !Z.pow_add_r by lia. f_equal. unfold E0 in E. lia. }
      change (2 ^ 53) with 9007199254740992 in *. nia.
    + specialize (Hbounds (K + E0 - 1) ltac:(lia) eq_refl).
      replace (K + E0) with (Z.succ (K + E0 - 1)) by lia.
      rewrite Z.pow_succ_r by lia. lia.
Qed.

Lemma pow2_le_mono x y : 0 <= x <= y -> 2 ^ x <= 2 ^ y.
Proof. intros. apply Z.pow_le_mono_r; lia. Qed.

Lemma pow2_double x y : 0 <= x < y -> 2 * 2 ^ x <= 2 ^ y.
Proof.
  intros. rewrite <- Z.pow_succ_r by lia. apply Z.pow_le_mono_r; lia.
Qed.

Lemma round_ratio_exact neg a b m e :
  canonical m e -> 0 < a -> 0 < b ->
  fst (scale2 a b e) = snd (scale2 a b e) * Z.pos m ->
  round_ratio neg a b = Finite neg m e.
Proof.
  intros Hc Ha Hb Heq.
  set (K := Z.abs (binade_exp a b) + Z.abs e + 1).
  assert (HK : 0 <= K) by lia.
  pose proof (binade_exp_spec a b K Ha Hb HK ltac:(lia)) as [Hlo Hhi].
  pose proof (proj1 (scale2_eq a b e _ K HK ltac:(lia)) Heq) as Hx.
  pose proof (pow2_pos (K + e) ltac:(lia)) as Hv.
  pose proof (pow2_pos (K + binade_exp a b) ltac:(lia)) as Hu.
  assert (HE : Z.max (binade_exp a b) (-1074) = e).
  { change (2 ^ 52) with 4503599627370496 in *.
    change (2 ^ 53) with 9007199254740992 in *.
    set (u := 2 ^ (K + binade_exp a b)) in *. set (v := 2 ^ (K + e)) in *.
    assert (HX : 0 < b * u) by lia. assert (HY : 0 < b * v) by lia.
    destruct Hc as [[Hm He] | [Hm He]].
    - assert (binade_exp a b = e); [|lia].
      destruct (Z.lt_trichotomy (binade_exp a b) e) as [Hlt | [Heq' | Hgt]]; [|assumption|].
      + pose proof (pow2_double (K + binade_exp a b) (K + e) ltac:(lia)) as Hd.
        fold u v in Hd. assert (2 * (b * u) <= b * v) by nia.
        exfalso. generalize dependent (b * u). generalize dependent (b * v).
        intros; nia.
      + pose proof (pow2_double (K + e) (K + binade_exp a b) ltac:(lia)) as Hd.
        fold u v in Hd. assert (2 * (b * v) <= b * u) by nia.
        exfalso. generalize dependent (b * u). generalize dependent (b * v).
        intros; nia.
    - assert (binade_exp a b < e); [|lia].
      destruct (Z_lt_le_dec (binade_exp a b) e) as [|Hge]; [assumption|].
      pose proof (pow2_le_mono (K + e) (K + binade_exp a b) ltac:(lia)) as Hd.
      fold u v in Hd. assert (b * v <= b * u) by nia.
      exfalso. generalize dependent (b * u). generalize dependent (b * v).
      intros; nia. }
  unfold round_ratio. rewrite HE.
  pose proof (scale2_pos a b e Ha Hb) as [_ Hden].
  destruct (scale2 a b e) as [num den]. cbn [fst snd] in *. subst num.
  rewrite (Z.mul_comm den), round_half_even_exact by assumption.
  assert (Hm53 : (Z.pos m =? 2 ^ 53) = false).
  { apply Z.eqb_neq. destruct Hc as [[Hm _] | [Hm _]]; change (2 ^ 52) with 4503599627370496 in *;
      change (2 ^ 53) with 9007199254740992 in *; lia. }
  rewrite Hm53.
  assert (He : (971 <? e) = false).
  { apply Z.ltb_ge. destruct Hc as [[_ He] | [_ He]]; lia. }
  now rewrite He.
Qed.

Lemma round_ratio_binary64 neg a b : 0 < a -> 0 < b -> binary64 (round_ratio neg a b).
Proof.
  intros Ha Hb.
  set (K := Z.abs (binade_exp a b) + 1075).
  assert (HK : 0 <= K) by lia.
  pose proof (binade_exp_spec a b K Ha Hb HK ltac:(lia)) as [Hlo Hhi].
  unfold round_ratio.
  set (E := Z.max (binade_exp a b) (-1074)).
  pose proof (scale2_pos a b E Ha Hb) as [Hnum Hden].
  assert (Hup : fst (scale2 a b E) < snd (scale2 a b E) * 2 ^ 53).
  { apply (scale2_lt a b E _ K); [lia | lia |].
    pose proof (pow2_le_mono (K + binade_exp a b) (K + E) ltac:(lia)).
    pose proof (pow2_pos (K + binade_exp a b) ltac:(lia)).
    change (2 ^ 53) with 9007199254740992 in *. nia. }
  assert (Hlow : -1074 < E -> snd (scale2 a b E) * 2 ^ 52 <= fst (scale2 a b E)).
  { intros HE. apply (scale2_le a b E _ K); [lia | lia |].
    replace E with (binade_exp a b) by lia. exact Hlo. }
  destruct (scale2 a b E) as [num den]. cbn [fst snd] in *.
  pose proof (round_half_even_range num den Hden) as [Hr1 Hr2].
  assert (Hq : 0 <= num / den < 2 ^ 53).
  { split; [apply Z.div_pos; lia|]. apply Z.div_lt_upper_bound; lia. }
  destruct (round_half_even num den =? 2 ^ 53) eqn:E53.
  - change (2 ^ 52) with (Z.pos 4503599627370496).
    destruct (971 <? E + 1) eqn:Ev; [exact I|]. apply Z.ltb_ge in Ev.
    cbn. left. change (2 ^ 53) with 9007199254740992.
    change (2 ^ 52) with 4503599627370496. lia.
  - apply Z.eqb_neq in E53.
    destruct (round_half_even num den) as [|p|p] eqn:Er; try exact I.
    destruct (971 <? E) eqn:Ev; [exact I|]. apply Z.ltb_ge in Ev.
    cbn. unfold canonical.
    destruct (Z.eq_dec E (-1074)) as [HE|HE].
    + destruct (Z_lt_le_dec (Z.pos p) (2 ^ 52)); [right | left]; lia.
    + left. assert (2 ^ 52 <= num / den); [|lia].
      apply Z.div_le_lower_bound; [lia|]. specialize (Hlow ltac:(lia)). lia.
Qed.

(** *** Digits *)

Lemma digit_cases d : 0 <= d <= 9 ->
  d = 0 \/ d = 1 \/ d = 2 \/ d = 3 \/ d = 4 \/ d = 5 \/ d = 6 \/ d = 7 \/ d = 8 \/ d = 9.
Proof. lia. Qed.

Lemma digit_char_is_digit d : 0 <= d <= 9 -> is_digit (digit_char d) = true.
Proof. intros H. apply digit_cases in H. intuition subst; reflexivity. Qed.

Lemma digit_value_char d : 0 <= d <= 9 -> digit_value (digit_char d) = d.
Proof. intros H. apply digit_cases in H. intuition subst; reflexivity. Qed.

Lemma append_cons c (x y : string) : String c x ++ y = String c (x ++ y).
Proof. reflexivity. Qed.

Lemma append_assoc (x y z : string) : (x ++ y) ++ z = x ++ y ++ z.
Proof.
  induction x as [|c x IH]; [reflexivity|].
  rewrite !append_cons. now rewrite IH.
Qed.

Lemma length_append (x y : string) :
  String.length (x ++ y) = (String.length x + String.length y)%nat.
Proof.
  induction x as [|c x IH]; [reflexivity|].
  rewrite append_cons. cbn [String.length]. now rewrite IH.
Qed.

Lemma all_digits_append x y : all_digits (x ++ y) = all_digits x && all_digits y.
Proof.
  induction x as [|c x IH]; [reflexivity|].
  rewrite append_cons. cbn [all_digits]. rewrite IH. apply andb_assoc.
Qed.

Lemma digits_value_append acc x y :
  digits_value acc (x ++ y) = digits_value (digits_value acc x) y.
Proof.
  revert acc. induction x as [|c x IH]; intros acc; [reflexivity|].
  rewrite append_cons. cbn [digits_value]. apply IH.
Qed.

Lemma digits_value_shift acc ds :
  digits_value acc ds = acc * 10 ^ Z.of_nat (String.length ds) + digits_value 0 ds.
Proof.
  revert acc. induction ds as [|c ds IH]; intros acc.
  - cbn. lia.
  - cbn [digits_value String.length]. rewrite IH, (IH (10 * 0 + digit_value c)).
    rewrite Nat2Z.inj_succ, Z.pow_succ_r by lia. ring.
Qed.

Lemma digits_value_nonneg ds : all_digits ds = true -> forall acc, 0 <= acc -> 0 <= digits_value acc ds.
Proof.
  induction ds as [|c ds IH]; intros H acc Hacc; [assumption|].
  cbn [all_digits] in H. apply andb_true_iff in H as [Hc Hds].
  cbn [digits_value]. apply IH; [assumption|].
  unfold is_digit in Hc. apply andb_true_iff in Hc as [Hc _]. apply Z.leb_le in Hc.
  unfold digit_value. lia.
Qed.

Lemma digits_fuel_all fuel : forall z acc,
  0 <= z -> all_digits acc = true -> all_digits (digits_fuel fuel z acc) = true.
Proof.
  induction fuel as [|f IH]; intros z acc Hz Hacc; [assumption|].
  cbn [digits_fuel].
  assert (Hd : all_digits (String (digit_char (z mod 10)) acc) = true).
  { cbn [all_digits]. rewrite digit_char_is_digit, Hacc; [reflexivity|].
    pose proof (Z.mod_pos_bound z 10). lia. }
  destruct (z <? 10); [assumption|]. apply IH; [|assumption].
  apply Z.div_pos; lia.
Qed.

Lemma digits_fuel_value fuel : forall z acc,
  0 <= z < 2 ^ Z.of_nat fuel ->
  digits_value 0 (digits_fuel fuel z acc)
  = z * 10 ^ Z.of_nat (String.length acc) + digits_value 0 acc.
Proof.
  induction fuel as [|f IH]; intros z acc Hz.
  - cbn in Hz. cbn [digits_fuel]. assert (z = 0) as -> by lia. lia.
  - cbn [digits_fuel].
    pose proof (Z.mod_pos_bound z 10 ltac:(lia)) as Hm.
    assert (Hv : digits_value 0 (String (digit_char (z mod 10)) acc)
                 = z mod 10 * 10 ^ Z.of_nat (String.length acc) + digits_value 0 acc).
    { cbn [digits_value]. rewrite digits_value_shift, digit_value_char by lia.
      f_equal. }
    destruct (z <? 10) eqn:E.
    + apply Z.ltb_lt in E. rewrite Hv. rewrite Z.mod_small by lia. reflexivity.
    + apply Z.ltb_ge in E. rewrite IH.
      * rewrite Hv. cbn [String.length]. rewrite Nat2Z.inj_succ, Z.pow_succ_r by lia.
        rewrite (Z.div_mod z 10) at 3 by lia. ring.
      * rewrite Nat2Z.inj_succ, Z.pow_succ_r in Hz by lia.
        split; [apply Z.div_pos; lia|]. apply Z.div_lt_upper_bound; lia.
Qed.

Lemma digits_fuel_head fuel : forall z acc c r,
  acc = String c r -> exists c' r', digits_fuel fuel z acc = String c' r'.
Proof.
  induction fuel as [|f IH]; intros z acc c r ->; cbn [digits_fuel]; eauto.
  destruct (z <? 10); eauto.
Qed.

Lemma digits_of_all z : 0 <= z -> all_digits (digits_of z) = true.
Proof. intros. now apply digits_fuel_all. Qed.

Lemma digits_of_value z : 0 <= z -> digits_value 0 (digits_of z) = z.
Proof.
  intros Hz. unfold digits_of. rewrite digits_fuel_value.
  - cbn. lia.
  - split; [assumption|]. rewrite Nat2Z.inj_succ, Z2Nat.id by apply Z.log2_nonneg.
    destruct (Z.eq_dec z 0) as [->|]; [reflexivity|].
    apply Z.log2_spec. lia.
Qed.

Lemma digits_of_head z : exists c r, digits_of z = String c r.
Proof.
  unfold digits_of. cbn [digits_fuel].
  destruct (z <? 10); eauto. eapply digits_fuel_head. reflexivity.
Qed.

Lemma span_digits_append x y :
  all_digits x = true -> stops y = true -> span_digits (x ++ y) = (x, y).
Proof.
  intros Hx Hy. induction x as [|c x IH].
  - destruct y as [|c y]; [reflexivity|]. cbn [stops] in Hy.
    change (span_digits (String c y) = (EmptyString, String c y)).
    cbn [span_digits]. destruct (is_digit c); [discriminate | reflexivity].
  - cbn [all_digits] in Hx. apply andb_true_iff in Hx as [Hc Hx].
    rewrite append_cons. cbn [span_digits]. rewrite Hc, (IH Hx). reflexivity.
Qed.

Lemma span_digits_all x : all_digits x = true -> span_digits x = (x, EmptyString).
Proof.
  intros Hx. rewrite <- (append_empty x) at 1. now apply span_digits_append.
Qed.

(** *** Reading back what [render] writes *)

Lemma digit_is_plain c : is_digit c = true ->
  Ascii.eqb c "." = false /\ Ascii.eqb c "-" = false /\ Ascii.eqb c "+" = false
  /\ Ascii.eqb "I" c = false /\ is_space1 c = false
  /\ (forall c1, is_space2 c c1 = false) /\ (forall c1 c2, is_space3 c c1 c2 = false).
Proof.
  destruct c as [b0 b1 b2 b3 b4 b5 b6 b7].
  destruct b0, b1, b2, b3, b4, b5, b6, b7; intros H; try discriminate H;
    repeat split; intros; reflexivity.
Qed.

Lemma trim_start_keep c r :
  is_space1 c = false -> (forall c1, is_space2 c c1 = false) ->
  (forall c1 c2, is_space3 c c1 c2 = false) ->
  trim_start (String c r) = String c r.
Proof.
  intros H1 H2 H3. cbn [trim_start]. rewrite H1.
  destruct r as [|c1 r1]; [reflexivity|]. rewrite H2.
  destruct r1 as [|c2 r2]; [reflexivity|]. now rewrite H3.
Qed.

Lemma parseFloat_unsigned d r :
  is_digit d = true -> parseFloat (String d r) = read_decimal false (String d r).
Proof.
  intros Hd. destruct (digit_is_plain d Hd) as (_ & Hm & Hp & _ & H1 & H2 & H3).
  unfold parseFloat. rewrite trim_start_keep by assumption.
  cbn [read_sign]. now rewrite Hm, Hp.
Qed.

Lemma parseFloat_negative r : parseFloat (String "-" r) = read_decimal true r.
Proof.
  unfold parseFloat. rewrite trim_start_keep; [reflexivity | reflexivity | |];
    intros; reflexivity.
Qed.

Lemma is_empty_false s : is_empty s = false <-> exists c r, s = String c r.
Proof.
  destruct s; cbn; split; try discriminate; eauto.
  intros (c & r & H). discriminate.
Qed.

Lemma read_exponent_digits (b : bool) z :
  0 <= z ->
  read_exponent (String "e" ((if b then "-" else "+") ++ digits_of z))
  = if b then - z else z.
Proof.
  intros Hz. cbn [read_exponent]. change (Ascii.eqb "e" "e" || Ascii.eqb "e" "E") with true.
  cbv iota.
  assert (Hs : read_sign ((if b then "-" else "+") ++ digits_of z) = (b, digits_of z)).
  { destruct b; reflexivity. }
  rewrite Hs, span_digits_all by now apply digits_of_all.
  destruct (digits_of_head z) as (c & r & Hh).
  assert (He : is_empty (digits_of z) = false) by now rewrite Hh.
  rewrite He, digits_of_value by assumption. reflexivity.
Qed.

Lemma starts_with_digit ip r :
  all_digits ip = true -> is_empty ip = false -> starts_with "Infinity" (ip ++ r) = false.
Proof.
  intros Ha He. apply is_empty_false in He as (c & ip' & ->).
  cbn [all_digits] in Ha. apply andb_true_iff in Ha as [Hc _].
  destruct (digit_is_plain c Hc) as (_ & _ & _ & HI & _).
  rewrite append_cons. cbn [starts_with]. now rewrite HI.
Qed.

Lemma exponent_or_end_stops r2 : exponent_or_end r2 -> stops r2 = true.
Proof. intros [-> | [r ->]]; reflexivity. Qed.

Lemma read_decimal_int neg ip r2 :
  all_digits ip = true -> is_empty ip = false -> exponent_or_end r2 ->
  read_decimal neg (ip ++ r2) = round_decimal neg (digits_value 0 ip) (read_exponent r2).
Proof.
  intros Ha He Hr. unfold read_decimal.
  rewrite starts_with_digit by assumption.
  rewrite span_digits_append by (assumption || now apply exponent_or_end_stops).
  assert (Hfp : match r2 with
                | String c r' => if Ascii.eqb c "." then span_digits r' else (EmptyString, r2)
                | EmptyString => (EmptyString, r2)
                end = (EmptyString, r2)).
  { destruct Hr as [-> | [r ->]]; reflexivity. }
  rewrite Hfp, He. cbn [andb String.length Z.of_nat].
  now rewrite append_empty, Z.sub_0_r.
Qed.

Lemma read_decimal_frac neg ip fp r2 :
  all_digits ip = true -> is_empty ip = false -> all_digits fp = true ->
  exponent_or_end r2 ->
  read_decimal neg (ip ++ String "." (fp ++ r2))
  = round_decimal neg (digits_value 0 (ip ++ fp))
                  (read_exponent r2 - Z.of_nat (String.length fp)).
Proof.
  intros Ha He Hf Hr. unfold read_decimal.
  rewrite starts_with_digit by assumption.
  rewrite span_digits_append by (assumption || reflexivity).
  change (Ascii.eqb "." ".") with true. cbv iota.
  rewrite span_digits_append by (assumption || now apply exponent_or_end_stops).
  now rewrite He.
Qed.

Lemma zeros_all j : all_digits (zeros j) = true.
Proof. induction j; [reflexivity | assumption]. Qed.

Lemma zeros_length j : String.length (zeros j) = j.
Proof. induction j as [|j IH]; [reflexivity|]. cbn [zeros String.length]. now rewrite IH. Qed.

Lemma zeros_value acc j : digits_value acc (zeros j) = acc * 10 ^ Z.of_nat j.
Proof.
  revert acc. induction j as [|j IH]; intros acc.
  - cbn. lia.
  - cbn [zeros digits_value]. rewrite IH.
    change (digit_value "0") with 0. rewrite Nat2Z.inj_succ, Z.pow_succ_r by lia. ring.
Qed.

Lemma take_substr n : forall s, take n s ++ substr n s = s.
Proof.
  induction n as [|n IH]; intros s; [destruct s; reflexivity|].
  destruct s as [|c s]; [reflexivity|].
  cbn [take substr]. rewrite append_cons. now rewrite IH.
Qed.

Lemma take_length n : forall s,
  (n <= String.length s)%nat -> String.length (take n s) = n.
Proof.
  induction n as [|n IH]; intros s H; [destruct s; reflexivity|].
  destruct s as [|c s]; [cbn in H; lia|].
  cbn [take String.length]. rewrite IH; [reflexivity|]. cbn in H. lia.
Qed.

Lemma read_exponent_empty : read_exponent EmptyString = 0.
Proof. reflexivity. Qed.

Lemma round_decimal_int neg s q :
  0 < s -> 0 <= q -> round_decimal neg (s * 10 ^ q) 0 = round_decimal neg s q.
Proof.
  intros Hs Hq. unfold round_decimal.
  assert (H10 : 0 < 10 ^ q) by (apply Z.pow_pos_nonneg; lia).
  assert (E1 : (s * 10 ^ q =? 0) = false) by (apply Z.eqb_neq; nia).
  assert (E2 : (s =? 0) = false) by (apply Z.eqb_neq; lia).
  rewrite E1, E2. rewrite (Z.max_r 0 q), (Z.max_l 0 (- q)) by lia.
  change (Z.max 0 0) with 0. change (Z.max 0 (- 0)) with 0.
  f_equal. change (10 ^ 0) with 1. lia.
Qed.

Lemma render_reads neg s q :
  0 < s -> read_decimal neg (render s q) = round_decimal neg s q.
Proof.
  intros Hs. unfold render. cbv zeta.
  pose proof (digits_of_all s ltac:(lia)) as Hall.
  pose proof (digits_of_value s ltac:(lia)) as Hval.
  destruct (digits_of_head s) as (c0 & r0 & Hhead).
  remember (digits_of s) as ds eqn:Eds. clear Eds.
  set (k := Z.of_nat (String.length ds)).
  assert (Hk : 1 <= k) by (unfold k; rewrite Hhead; cbn [String.length]; lia).
  set (n := q + k).
  destruct ((k <=? n) && (n <=? 21)) eqn:C1.
  { apply andb_true_iff in C1 as [C1 _]. apply Z.leb_le in C1.
    rewrite <- (append_empty (ds ++ zeros _)).
    rewrite read_decimal_int.
    - rewrite digits_value_append, zeros_value, Hval, read_exponent_empty.
      rewrite Z2Nat.id by lia. replace (n - k) with q by lia.
      apply round_decimal_int; lia.
    - now rewrite all_digits_append, Hall, zeros_all.
    - rewrite Hhead. reflexivity.
    - now left. }
  destruct ((0 <? n) && (n <=? 21)) eqn:C2.
  { apply andb_true_iff in C2 as [C2 C2']. apply Z.ltb_lt in C2. apply Z.leb_le in C2'.
    apply andb_false_iff in C1 as [C1|C1]; [apply Z.leb_gt in C1 | apply Z.leb_gt in C1; lia].
    pose proof (take_substr (Z.to_nat n) ds) as Hts.
    assert (Hlt : String.length (take (Z.to_nat n) ds) = Z.to_nat n).
    { apply take_length. unfold k in C1. lia. }
    assert (Hls : Z.of_nat (String.length (substr (Z.to_nat n) ds)) = k - n).
    { unfold k. rewrite <- Hts at 2. rewrite length_append, Hlt. lia. }
    assert (Hat : all_digits (take (Z.to_nat n) ds) = true
                  /\ all_digits (substr (Z.to_nat n) ds) = true).
    { rewrite <- Hts, all_digits_append in Hall. now apply andb_true_iff in Hall. }
    destruct Hat as [Hat Has].
    replace (take (Z.to_nat n) ds ++ "." ++ substr (Z.to_nat n) ds)
      with (take (Z.to_nat n) ds ++ String "." (substr (Z.to_nat n) ds ++ ""))
      by now rewrite append_empty.
    rewrite read_decimal_frac.
    - rewrite Hts, Hval, read_exponent_empty, Hls. f_equal. lia.
    - assumption.
    - apply is_empty_false. destruct (Z.to_nat n) eqn:En; [lia|].
      rewrite Hhead. cbn [take]. eauto.
    - assumption.
    - now left. }
  destruct ((-6 <? n) && (n <=? 0)) eqn:C3.
  { apply andb_true_iff in C3 as [C3 C3']. apply Z.ltb_lt in C3. apply Z.leb_le in C3'.
    replace ("0." ++ zeros (Z.to_nat (- n)) ++ ds)
      with ("0" ++ String "." ((zeros (Z.to_nat (- n)) ++ ds) ++ ""))
      by now rewrite append_empty.
    rewrite read_decimal_frac.
    - rewrite read_exponent_empty, length_append, zeros_length.
      change ("0" ++ zeros (Z.to_nat (- n)) ++ ds)
        with (String "0" (zeros (Z.to_nat (- n)) ++ ds)).
      cbn [digits_value]. change (10 * 0 + digit_value "0") with 0.
      rewrite digits_value_append, zeros_value, Z.mul_0_l, Hval.
      f_equal. fold k. lia.
    - reflexivity.
    - reflexivity.
    - now rewrite all_digits_append, Hall, zeros_all.
    - now left. }
  assert (Hex : read_exponent
                  (String "e" ((if n - 1 <? 0 then "-" else "+") ++ digits_of (Z.abs (n - 1))))
                = n - 1).
  { rewrite read_exponent_digits by lia. destruct (n - 1 <? 0) eqn:E.
    - apply Z.ltb_lt in E. lia.
    - apply Z.ltb_ge in E. lia. }
  subst ds. destruct r0 as [|c1 r1].
  - change (String c0 ("e" ++ ?x)) with ((String c0 "") ++ String "e" x).
    rewrite read_decimal_int.
    + rewrite Hex, Hval. f_equal. unfold n, k. cbn [String.length]. lia.
    + assumption.
    + reflexivity.
    + right. eauto.
  - change (String c0 ("." ++ String c1 r1 ++ "e" ++ ?x))
      with ((String c0 "") ++ String "." (String c1 r1 ++ String "e" x)).
    cbn [all_digits] in Hall. apply andb_true_iff in Hall as [Hc0 Hall'].
    rewrite read_decimal_frac.
    + rewrite Hex. change (String c0 "" ++ String c1 r1) with (String c0 (String c1 r1)).
      rewrite Hval. f_equal. unfold n, k. cbn [String.length]. lia.
    + cbn [all_digits]. now rewrite Hc0.
    + reflexivity.
    + assumption.
    + right. eauto.
Qed.

Lemma render_head s q :
  0 < s -> exists d r, render s q = String d r /\ is_digit d = true.
Proof.
  intros Hs. unfold render. cbv zeta.
  pose proof (digits_of_all s ltac:(lia)) as Hall.
  destruct (digits_of_head s) as (c0 & r0 & Hhead).
  rewrite Hhead in *. cbn [all_digits] in Hall. apply andb_true_iff in Hall as [Hc0 _].
  set (k := Z.of_nat (String.length (String c0 r0))).
  destruct ((k <=? q + k) && (q + k <=? 21)); [rewrite append_cons; eauto|].
  destruct ((0 <? q + k) && (q + k <=? 21)) eqn:C2.
  { apply andb_true_iff in C2 as [C2 _]. apply Z.ltb_lt in C2.
    destruct (Z.to_nat (q + k)) eqn:En; [lia|]. cbn [take]. rewrite append_cons. eauto. }
  destruct ((-6 <? q + k) && (q + k <=? 0)); [exists "0"%char; eauto|].
  destruct r0; eauto.
Qed.

(** *** The shortest decimal reads back *)

Lemma round_decimal_sign neg n' s q m e :
  round_decimal false s q = Finite n' m e -> round_decimal neg s q = Finite neg m e.
Proof.
  unfold round_decimal, round_ratio.
  destruct (s =? 0); [discriminate|]. cbv zeta.
  destruct (scale2 _ _ _) as [num den].
  destruct (round_half_even num den =? 2 ^ 53).
  - destruct (2 ^ 52); try discriminate.
    destruct (971 <? _); [discriminate|]. intros H. now injection H as _ <- <-.
  - destruct (round_half_even num den); try discriminate.
    destruct (971 <? _); [discriminate|]. intros H. now injection H as _ <- <-.
Qed.

Lemma round_decimal_binary64 neg d q : 0 <= d -> binary64 (round_decimal neg d q).
Proof.
  intros Hd. unfold round_decimal. destruct (d =? 0) eqn:E; [exact I|].
  apply Z.eqb_neq in E. apply round_ratio_binary64.
  - apply Z.mul_pos_pos; [lia|]. apply Z.pow_pos_nonneg; lia.
  - apply Z.pow_pos_nonneg; lia.
Qed.

Lemma reads_as_true s q m e :
  reads_as s q m e = true -> s <> 0 /\ forall neg, round_decimal neg s q = Finite neg m e.
Proof.
  unfold reads_as. intros H. split.
  - intros ->. cbn in H. discriminate.
  - intros neg. destruct (round_decimal false s q) as [| | |n' m' e'] eqn:E; try discriminate.
    apply andb_true_iff in H as [Hm He].
    apply Pos.eqb_eq in Hm. apply Z.eqb_eq in He. subst m' e'.
    now apply (round_decimal_sign neg n').
Qed.

Lemma strip_zeros_nonneg fuel : forall s q, 0 <= s -> 0 <= fst (strip_zeros fuel s q).
Proof.
  induction fuel as [|f IH]; intros s q Hs; [assumption|].
  cbn [strip_zeros]. destruct ((0 <? s) && (s mod 10 =? 0)); [|assumption].
  apply IH. apply Z.div_pos; lia.
Qed.

Lemma candidates_nonneg m e n k :
  0 < m ->
  0 <= fst (fst (candidates m e n k)) /\ 0 <= fst (snd (candidates m e n k)).
Proof.
  intros Hm. unfold candidates. cbv zeta.
  assert (H2 : forall z, 0 < 2 ^ Z.max 0 z) by (intros; apply Z.pow_pos_nonneg; lia).
  assert (H10 : forall z, 0 < 10 ^ Z.max 0 z) by (intros; apply Z.pow_pos_nonneg; lia).
  pose proof (H2 e). pose proof (H2 (- e)). pose proof (H10 (k - n)). pose proof (H10 (n - k)).
  match goal with |- context [round_half_even ?num ?den] =>
    assert (Hden : 0 < den) by nia; assert (Hnum : 0 <= num) by nia;
    pose proof (Z.div_pos num den Hnum Hden) as Hlo;
    destruct (round_half_even num den =? num / den)
  end; cbn [fst snd]; split; apply strip_zeros_nonneg; lia.
Qed.

Lemma search_reads fuel : forall m e n k s q,
  search fuel m e n k = Some (s, q) ->
  0 < s /\ forall neg, round_decimal neg s q = Finite neg m e.
Proof.
  induction fuel as [|f IH]; intros m e n k s q H; [discriminate|].
  cbn [search] in H.
  pose proof (candidates_nonneg (Z.pos m) e n k ltac:(lia)) as [Hc1 Hc2].
  destruct (candidates (Z.pos m) e n k) as [[s1 q1] [s2 q2]]. cbn [fst snd] in *.
  destruct (reads_as s1 q1 m e) eqn:Er1.
  { injection H as -> ->. apply reads_as_true in Er1 as [Hne Hr]. split; [lia | assumption]. }
  destruct (reads_as s2 q2 m e) eqn:Er2.
  { injection H as -> ->. apply reads_as_true in Er2 as [Hne Hr]. split; [lia | assumption]. }
  now apply IH in H.
Qed.

Lemma exact_decimal_reads m e : canonical m e ->
  let '(s, q) := exact_decimal m e in
  0 < s /\ forall neg, round_decimal neg s q = Finite neg m e.
Proof.
  intros Hc. unfold exact_decimal. destruct (0 <=? e) eqn:Ee.
  - apply Z.leb_le in Ee.
    assert (Hp : 0 < 2 ^ e) by (apply Z.pow_pos_nonneg; lia).
    split; [nia|]. intros neg. unfold round_decimal.
    assert (E0 : (Z.pos m * 2 ^ e =? 0) = false) by (apply Z.eqb_neq; nia).
    rewrite E0. apply round_ratio_exact; [assumption | cbn; nia | reflexivity |].
    unfold scale2. cbn [fst snd]. rewrite (Z.max_l 0 (- e)), (Z.max_r 0 e) by lia.
    change (Z.max 0 0) with 0. change (Z.max 0 (- 0)) with 0.
    change (10 ^ 0) with 1. change (2 ^ 0) with 1. ring.
  - apply Z.leb_gt in Ee.
    assert (Hp : 0 < 5 ^ (- e)) by (apply Z.pow_pos_nonneg; lia).
    split; [nia|]. intros neg. unfold round_decimal.
    assert (E0 : (Z.pos m * 5 ^ (- e) =? 0) = false) by (apply Z.eqb_neq; nia).
    rewrite E0. rewrite (Z.max_l 0 e), (Z.max_r 0 (- e)) by lia.
    apply round_ratio_exact; [assumption | cbn; nia | apply Z.pow_pos_nonneg; lia |].
    unfold scale2. cbn [fst snd]. rewrite (Z.max_r 0 (- e)), (Z.max_l 0 e) by lia.
    change (10 ^ (- e)) with ((5 * 2) ^ (- e)). rewrite Z.pow_mul_l.
    change (10 ^ 0) with 1. change (2 ^ 0) with 1. ring.
Qed.

Lemma shortest_reads m e s q :
  canonical m e -> shortest m e = (s, q) ->
  0 < s /\ forall neg, round_decimal neg s q = Finite neg m e.
Proof.
  intros Hc. unfold shortest.
  destruct (search 17 m e _ 1) as [[s' q']|] eqn:Es.
  - intros H. injection H as -> ->. now apply search_reads in Es.
  - intros H. pose proof (exact_decimal_reads m e Hc) as He. now rewrite H in He.
Qed.

(** *** Writing a Number and reading it back *)

Lemma span_digits_fst_all s : all_digits (fst (span_digits s)) = true.
Proof.
  induction s as [|c s IH]; [reflexivity|]. cbn [span_digits].
  destruct (is_digit c) eqn:Ec; [|reflexivity].
  destruct (span_digits s) as [ds r]. cbn [fst all_digits] in *. now rewrite Ec.
Qed.

Lemma read_decimal_binary64 neg r : binary64 (read_decimal neg r).
Proof.
  unfold read_decimal. destruct (starts_with "Infinity" r); [exact I|].
  pose proof (span_digits_fst_all r) as Hip.
  destruct (span_digits r) as [ip r1]. cbn [fst] in Hip.
  assert (Hfp : all_digits (fst (match r1 with
      | String c r' => if Ascii.eqb c "." then span_digits r' else (EmptyString, r1)
      | EmptyString => (EmptyString, r1)
      end)) = true).
  { destruct r1 as [|c r']; [reflexivity|].
    destruct (Ascii.eqb c "."); [apply span_digits_fst_all | reflexivity]. }
  destruct (match r1 with String _ _ => _ | EmptyString => _ end) as [fp r2].
  cbn [fst] in Hfp.
  destruct (is_empty ip && is_empty fp); [exact I|].
  apply round_decimal_binary64. apply digits_value_nonneg; [|lia].
  now rewrite all_digits_append, Hip, Hfp.
Qed.

Lemma parseFloat_binary64 s : binary64 (parseFloat s).
Proof.
  unfold parseFloat. destruct (read_sign (trim_start s)). apply read_decimal_binary64.
Qed.

Lemma parseFloat_number_to_string w :
  binary64 w -> parseFloat (number_to_string w) = unsigned_zero w.
Proof.
  destruct w as [|neg|neg|neg m e]; intros Hw.
  - reflexivity.
  - destruct neg; reflexivity.
  - reflexivity.
  - cbn [number_to_string unsigned_zero]. cbn [binary64] in Hw.
    destruct (shortest m e) as [s q] eqn:Es.
    destruct (shortest_reads m e s q Hw Es) as [Hs Hr].
    destruct neg.
    + change ("-" ++ render s q) with (String "-" (render s q)).
      now rewrite parseFloat_negative, render_reads.
    + destruct (render_head s q Hs) as (d & r & Hh & Hd).
      rewrite Hh, parseFloat_unsigned by assumption.
      now rewrite <- Hh, render_reads.
Qed.

Lemma number_to_string_not_sentinel w :
  binary64 w ->
  String.eqb (number_to_string w) "-" = false
  /\ String.eqb (number_to_string w) "--" = false.
Proof.
  destruct w as [|neg|neg|neg m e]; intros Hw; try (split; reflexivity).
  - destruct neg; split; reflexivity.
  - cbn [number_to_string]. cbn [binary64] in Hw.
    destruct (shortest m e) as [s q] eqn:Es.
    destruct (shortest_reads m e s q Hw Es) as [Hs _].
    destruct (render_head s q Hs) as (d & r & -> & Hd).
    destruct (digit_is_plain d Hd) as (_ & Hm & _).
    destruct neg.
    + change ("-" ++ String d r) with (String "-" (String d r)).
      cbn [String.eqb]. rewrite Hm. split; reflexivity.
    + cbn [String.eqb]. rewrite Hm. split; reflexivity.
Qed.

Lemma unsigned_zero_binary64 w : binary64 w -> binary64 (unsigned_zero w).
Proof. destruct w; auto. Qed.

Lemma unsigned_zero_idem w : unsigned_zero (unsigned_zero w) = unsigned_zero w.
Proof. now destruct w. Qed.

Lemma unsigned_zero_same w : same_number (unsigned_zero w) w.
Proof. destruct w; try (now left). right. eauto. Qed.

Lemma temperature_of_text t :
  String.eqb t "-" = false -> String.eqb t "--" = false ->
  PARSER.temperature (Str t) = Num (parseFloat t).
Proof. intros H1 H2. unfold PARSER.temperature. cbn. now rewrite H1, H2. Qed.

(** C6, amended. For every input that is not missing and not a sentinel,
    parsing, formatting and parsing again gives the Number of the first
    parse, a negative zero coming back as zero.  (For [null] and the
    sentinels the first parse is [null], which the formatter is not meant
    for: the field mapper skips [null] fields.) *)
Theorem temperature_round_trip_stable (x : value) :
  is_nullish x = false -> x <> Str "-" -> x <> Str "--" ->
  exists w w',
    PARSER.temperature x = Num w
    /\ PARSER.temperature (FORMATTER.temperature (PARSER.temperature x)) = Num w'
    /\ same_number w' w.
Proof.
  intros Hn H1 H2.
  assert (Hx : PARSER.temperature x = Num (parseFloat (to_string x))).
  { unfold PARSER.temperature. rewrite Hn.
    destruct x as [| |b|n|s]; try reflexivity. cbn.
    destruct (String.eqb_spec s "-"); [congruence|].
    destruct (String.eqb_spec s "--"); [congruence|]. reflexivity. }
  set (w := parseFloat (to_string x)) in *.
  assert (Hw : binary64 w) by apply parseFloat_binary64.
  exists w, (unsigned_zero w). split; [exact Hx|]. split; [|apply unsigned_zero_same].
  rewrite Hx. unfold FORMATTER.temperature.
  change (PARSER.temperature (Num w)) with (Num (parseFloat (number_to_string w))).
  rewrite parseFloat_number_to_string by assumption.
  cbn [to_string].
  destruct (number_to_string_not_sentinel _ (unsigned_zero_binary64 w Hw)) as [E1 E2].
  rewrite temperature_of_text by assumption.
  rewrite parseFloat_number_to_string by now apply unsigned_zero_binary64.
  now rewrite unsigned_zero_idem.
Qed.

Lemma temperature_round_trip_stable_witness :
  exists w w',
    PARSER.temperature (Str "24.0") = Num w
    /\ PARSER.temperature (FORMATTER.temperature (PARSER.temperature (Str "24.0"))) = Num w'
    /\ same_number w' w.
Proof.
  apply (temperature_round_trip_stable (Str "24.0")); [reflexivity | discriminate | discriminate].
Defined.

(** ** Further properties of the response decoder *)

Lemma decode_ok_shape (parts : list string) :
  Forall (fun p => contains "," p = false) parts ->
  decode_response ("ret=OK" ++ join_parts parts) = decode_fields parts.
Proof.
  intros Hc. unfold decode_response.
  rewrite split_join by (assumption || reflexivity). reflexivity.
Qed.

Lemma put_pair_two r a b :
  put_pair r [a; b] = if String.eqb a "__proto__" then r else <[a := Str b]> r.
Proof. reflexivity. Qed.

Lemma fold_put_pair_strings (xs : list (list string)) : forall r : record,
  Forall (fun x => length x = 2%nat) xs ->
  (forall k v, r !! k = Some v -> exists s, v = Str s) ->
  forall k v, foldl put_pair r xs !! k = Some v -> exists s, v = Str s.
Proof.
  induction xs as [|x xs IH]; intros r Hl Hr k v; cbn [foldl]; [apply Hr|].
  apply Forall_cons in Hl as [Hx Hxs].
  destruct x as [|a [|b [|? ?]]]; try discriminate Hx.
  apply IH; [assumption|]. intros k' v'. rewrite put_pair_two.
  destruct (String.eqb a "__proto__"); [apply Hr|].
  destruct (decide (a = k')) as [->|Hne].
  - rewrite lookup_insert_eq. intros [= <-]. eauto.
  - rewrite lookup_insert_ne by assumption. apply Hr.
Qed.

Lemma decode_fields_strings parts r k v :
  decode_fields parts = Ok r -> r !! k = Some v -> exists s, v = Str s.
Proof.
  unfold decode_fields. destruct (mapM decode_part parts) as [xs|]; [|discriminate].
  intros [= <-]. apply fold_put_pair_strings.
  - apply Forall_forall. intros x Hin.
    apply list_elem_of_In, List.filter_In in Hin as [_ Hin]. now apply Nat.eqb_eq.
  - intros k' v'. rewrite lookup_empty. discriminate.
Qed.

Lemma decode_response_fields response r :
  decode_response response = Ok r ->
  exists part0 rest, split "," response = part0 :: rest
    /\ starts_with "ret=" part0 = true /\ substr 4 part0 = "OK"
    /\ decode_fields rest = Ok r.
Proof.
  unfold decode_response. destruct (split "," response) as [|part0 rest]; [discriminate|].
  destruct (indexOf "ret=" part0 =? 0) eqn:E; cbn [negb]; [|discriminate].
  apply Z.eqb_eq, indexOf_0 in E.
  unfold RET_MSG_PARAM_NG, RET_MSG_ADV_NG, RET_MSG_OK.
  destruct (String.eqb (substr 4 part0) "PARAM NG"); [discriminate|].
  destruct (String.eqb (substr 4 part0) "ADV_NG"); [discriminate|].
  destruct (String.eqb_spec (substr 4 part0) "OK") as [Ho|]; cbn [negb]; [|discriminate].
  intros H. eauto 10.
Qed.

(** X1. Every value of a decoded record is a string: the decoder gives no
    number, boolean or [null]. *)
Theorem decoded_values_are_strings (response : string) (r : record) k v :
  decode_response response = Ok r -> r !! k = Some v -> exists s, v = Str s.
Proof.
  intros H. apply decode_response_fields in H as (p0 & rest & _ & _ & _ & H).
  exact (decode_fields_strings rest r k v H).
Qed.

Lemma decoded_values_are_strings_witness :
  exists s, Str "24.0" = Str s.
Proof.
  apply (decoded_values_are_strings sample_response sample_current "stemp").
  - vm_compute. reflexivity.
  - reflexivity.
Defined.

Lemma starts_with_split sub : forall s,
  starts_with sub s = true -> s = sub ++ substr (String.length sub) s.
Proof.
  induction sub as [|a sub IH]; intros s H; [reflexivity|].
  destruct s as [|b s]; [discriminate|]. cbn [starts_with] in H.
  apply andb_true_iff in H as [Hab Hs]. apply Ascii.eqb_eq in Hab as ->.
  cbn [String.length substr]. rewrite append_cons. f_equal. now apply IH.
Qed.

Lemma split_inverse sep : forall s p ps,
  split sep s = p :: ps ->
  (ps = [] /\ s = p) \/ exists t, s = p ++ String sep t /\ split sep t = ps.
Proof.
  induction s as [|c s IH]; intros p ps H.
  - cbn in H. injection H as <- <-. now left.
  - cbn [split] in H. destruct (Ascii.eqb_spec c sep) as [->|Hne].
    + injection H as <- <-. right. exists s. split; reflexivity.
    + destruct (split sep s) as [|q qs] eqn:Es; [now apply split_not_nil in Es|].
      injection H as <- <-.
      destruct (IH q qs eq_refl) as [[-> ->] | (t & -> & Ht)].
      * now left.
      * right. exists t. split; [reflexivity | assumption].
Qed.

(** X2. Decoding succeeds only for a payload that is [ret=OK], alone or
    followed by a comma. *)
Theorem decode_ok_only_after_ok (response : string) (r : record) :
  decode_response response = Ok r ->
  response = "ret=OK" \/ exists t, response = "ret=OK," ++ t.
Proof.
  intros H. apply decode_response_fields in H as (p0 & rest & Hs & Hp & Ho & _).
  apply starts_with_split in Hp. cbn [String.length] in Hp. rewrite Ho in Hp.
  change ("ret=" ++ "OK") with "ret=OK" in Hp. subst p0.
  apply split_inverse in Hs as [[_ ->] | (t & -> & _)]; [now left | right; now exists t].
Qed.

Lemma decode_ok_only_after_ok_witness :
  sample_response = "ret=OK" \/ exists t, sample_response = "ret=OK," ++ t.
Proof.
  apply (decode_ok_only_after_ok sample_response sample_current). vm_compute. reflexivity.
Defined.

Lemma decode_plain (s : string) : contains "%" s = false -> decodeURIComponent s = Some s.
Proof.
  unfold decodeURIComponent. induction s as [|c s IH]; [reflexivity|].
  cbn [contains]. intros H. apply orb_false_iff in H as [Hc Hs].
  cbn [decode_from]. rewrite Hc, (IH Hs). reflexivity.
Qed.

Lemma plain_parts s :
  plain s = true ->
  contains "," s = false /\ contains "=" s = false /\ contains "%" s = false.
Proof.
  unfold plain. intros H. apply andb_true_iff in H as [H H3].
  apply andb_true_iff in H as [H1 H2].
  now rewrite negb_true_iff in H1, H2, H3.
Qed.

Lemma contains_append c a b : contains c (a ++ b) = contains c a || contains c b.
Proof.
  induction a as [|x a IH]; [reflexivity|].
  rewrite append_cons. cbn [contains]. rewrite IH. apply orb_assoc.
Qed.

Lemma keep_plain_pair r k v :
  plain k = true -> plain v = true ->
  keep_or_drop r (pair_text (k, v))
  = if String.eqb k "__proto__" then r else <[k := Str v]> r.
Proof.
  intros Hk Hv.
  apply plain_parts in Hk as (_ & Hk & Hk'). apply plain_parts in Hv as (_ & Hv & Hv').
  unfold keep_or_drop, pair_text. cbn [fst snd].
  change (k ++ "=" ++ v) with (k ++ String "=" v).
  rewrite split_at_first, split_without by assumption.
  now rewrite !decode_plain by assumption.
Qed.

Lemma decode_part_plain_pair k v :
  plain k = true -> plain v = true -> decode_part (pair_text (k, v)) = Some [k; v].
Proof.
  intros Hk Hv. apply plain_parts in Hk as (_ & Hk & Hk'). apply plain_parts in Hv as (_ & Hv & Hv').
  unfold decode_part, pair_text. cbn [fst snd].
  change (k ++ "=" ++ v) with (k ++ String "=" v).
  rewrite split_at_first, split_without by assumption.
  cbn. now rewrite !decode_plain by assumption.
Qed.

(** X3. A payload [ret=OK] followed by fields [k=v] whose keys and values hold
    no comma, [=] or [%] decodes to exactly these fields, each value as it
    is written, a later field replacing an earlier one of the same key; a
    field of the name [__proto__] is the exception, it is never stored. *)
Theorem decode_plain_fields (kvs : list (string * string)) :
  Forall (fun kv => plain (fst kv) = true /\ plain (snd kv) = true) kvs ->
  decode_response ("ret=OK" ++ join_parts (map pair_text kvs))
  = Ok (foldl (fun r kv => <[fst kv := Str (snd kv)]> r) ∅
              (List.filter (fun kv => negb (String.eqb (fst kv) "__proto__")) kvs)).
Proof.
  intros Hp. rewrite decode_ok_shape.
  - unfold decode_fields.
    assert (Hm : mapM decode_part (map pair_text kvs)
                 = Some (map (fun kv => [fst kv; snd kv]) kvs)).
    { apply mapM_Some. induction Hp as [|[k v] kvs [Hk Hv] _ IH]; constructor; [|exact IH].
      now apply decode_part_plain_pair. }
    rewrite Hm. f_equal. rewrite (decode_fields_fused _ _ _ Hm). clear Hm.
    generalize (∅ : record). induction Hp as [|[k v] kvs [Hk Hv] _ IH]; intros r; [reflexivity|].
    cbn [map foldl List.filter fst snd]. rewrite keep_plain_pair by assumption.
    cbn [fst snd] in *. destruct (String.eqb k "__proto__"); cbn [negb foldl]; apply IH.
  - induction Hp as [|[k v] kvs [Hk Hv] _ IH]; constructor; [|exact IH].
    apply plain_parts in Hk as (Hk & _). apply plain_parts in Hv as (Hv & _).
    unfold pair_text. cbn [fst snd] in *.
    change (k ++ "=" ++ v) with (k ++ String "=" v).
    rewrite contains_append. cbn [contains]. now rewrite Hk, Hv.
Qed.

Lemma decode_plain_fields_witness :
  decode_response "ret=OK,pow=1,__proto__=x,stemp=24.0,pow=0"
  = Ok (<["pow" := Str "0"]> (<["stemp" := Str "24.0"]> (<["pow" := Str "1"]> ∅))).
Proof.
  apply (decode_plain_fields
           [("pow", "1"); ("__proto__", "x"); ("stemp", "24.0"); ("pow", "0")]).
  repeat constructor.
Defined.

(** X4. In a payload of status [OK] the decode fails with [URIError] exactly
    when some piece between [=] signs of some part is not a percent-encoding,
    be it in a part that would have been dropped. *)
Theorem decode_uri_error (parts : list string) :
  Forall (fun p => contains "," p = false) parts ->
  decode_response ("ret=OK" ++ join_parts parts) = Throw URIError
  <-> Exists (fun p => Exists (fun piece => decodeURIComponent piece = None)
                              (split "=" p)) parts.
Proof.
  intros Hc. rewrite decode_ok_shape by assumption. unfold decode_fields.
  destruct (mapM decode_part parts) as [xs|] eqn:E.
  - split; [discriminate|]. intros H. exfalso.
    assert (Hn : mapM decode_part parts = None); [|congruence].
    apply mapM_None. eapply Exists_impl; [exact H|].
    intros p Hp. now apply mapM_None.
  - split; [|reflexivity]. intros _. apply mapM_None in E.
    eapply Exists_impl; [exact E|]. intros p Hp. now apply mapM_None in Hp.
Qed.

Lemma decode_uri_error_witness :
  decode_response "ret=OK,pow=1,50%" = Throw URIError.
Proof.
  apply (decode_uri_error ["pow=1"; "50%"]).
  - repeat constructor.
  - right. left. left. reflexivity.
Defined.

(** ** Further properties of the field mapper *)

Lemma fold_fields_set (lambda : value -> value) (props : list string) : forall (x : record) p,
  NoDup props -> p ∈ props ->
  foldl (fun x prop => <[prop := lambda (get x prop)]> x) x props !! p
  = Some (lambda (get x p)).
Proof.
  induction props as [|a ps IH]; intros x p Hnd Hin; [now apply elem_of_nil in Hin|].
  apply NoDup_cons in Hnd as [Ha Hnd]. cbn [foldl].
  apply elem_of_cons in Hin as [->|Hin].
  - rewrite fold_fields_frame by (now rewrite <- list_elem_of_In).
    apply lookup_insert_eq.
  - rewrite IH by assumption. unfold get.
    rewrite lookup_insert_ne; [reflexivity|]. intros ->. contradiction.
Qed.

Lemma parse_data_unlisted (x : record) (formats : schema) p :
  p ∉ listed formats -> parse_data x formats !! p = x !! p.
Proof.
  unfold parse_data, listed. revert x.
  induction formats as [|[format props] fs IH]; intros x Hn; cbn [foldl]; [reflexivity|].
  cbn [map concat snd] in Hn. rewrite elem_of_app in Hn.
  rewrite IH by tauto. apply fold_fields_frame. rewrite <- list_elem_of_In. tauto.
Qed.

Lemma format_data_unlisted (x : record) (formats : schema) p :
  p ∉ listed formats -> format_data x formats !! p = x !! p.
Proof.
  unfold format_data, listed. revert x.
  induction formats as [|[format props] fs IH]; intros x Hn; cbn [foldl]; [reflexivity|].
  cbn [map concat snd] in Hn. rewrite elem_of_app in Hn.
  rewrite IH by tauto. apply fold_fields_frame.
  intros H. apply List.filter_In in H as [H _]. apply list_elem_of_In in H. tauto.
Qed.

Lemma parse_data_at (x : record) (formats : schema) format props p :
  NoDup (listed formats) -> (format, props) ∈ formats -> p ∈ props ->
  parse_data x formats !! p = Some (PARSER format (get x p)).
Proof.
  unfold parse_data. revert x.
  induction formats as [|[f ps] fs IH]; intros x Hnd Hin Hp; [now apply elem_of_nil in Hin|].
  unfold listed in Hnd. cbn [map concat snd] in Hnd.
  apply NoDup_app in Hnd as (Hps & Hdis & Hfs). cbn [foldl].
  apply elem_of_cons in Hin as [[= <- <-]|Hin].
  - fold (parse_data (foldl (fun x prop => <[prop := PARSER format (get x prop)]> x) x props) fs).
    rewrite parse_data_unlisted by (now apply Hdis).
    now apply fold_fields_set.
  - assert (Hl : p ∈ listed fs).
    { unfold listed. apply list_elem_of_In, in_concat. exists props.
      split; [|now apply list_elem_of_In].
      apply in_map_iff. exists (format, props). split; [reflexivity|].
      now apply list_elem_of_In. }
    rewrite IH by assumption. unfold get at 1.
    rewrite fold_fields_frame; [reflexivity|].
    rewrite <- list_elem_of_In. intros Hps'. now apply (Hdis p).
Qed.

(** X5. When no field is listed twice in the schema, parsing sets each listed
    field whose name [Object.prototype] does not define to its kind's parse
    of the field's value, a field that the record lacks being parsed from
    [undefined]; the order of the kinds does not matter. *)
Theorem parse_data_listed (x : record) (formats : schema) format props p :
  NoDup (listed formats) -> (format, props) ∈ formats -> p ∈ props ->
  inherited p = false ->
  parse_data x formats !! p = Some (PARSER format (default Undefined (x !! p))).
Proof. intros Hnd Hf Hp _. now apply (parse_data_at x formats format props p). Qed.

Ltac listed_in_schema :=
  first [ apply (bool_decide_unpack _); vm_compute; exact I
        | apply list_elem_of_In; cbn; auto 10 ].

Lemma parse_data_listed_witness :
  parse_control_info sample_current !! "alert" = Some (Num (Zero false)).
Proof.
  apply (parse_data_listed sample_current ctrl_formats Int ["alert"; "mode"; "b_mode"]).
  - apply (bool_decide_unpack _). vm_compute. exact I.
  - apply elem_of_cons. now left.
  - apply (bool_decide_unpack _). vm_compute. exact I.
  - reflexivity.
Defined.


Lemma fold_fields_format (lambda : value -> value) (props : list string) (x : record) p :
  NoDup props -> p ∈ props ->
  foldl (fun x prop => <[prop := lambda (get x prop)]> x) x
        (List.filter (fun prop => negb (is_nullish (get x prop))) props) !! p
  = if is_nullish (get x p) then x !! p else Some (lambda (get x p)).
Proof.
  intros Hnd Hin. destruct (is_nullish (get x p)) eqn:En.
  - apply fold_fields_frame. intros H. apply List.filter_In in H as [_ H].
    now rewrite En in H.
  - apply fold_fields_set.
    + apply NoDup_ListNoDup, List.NoDup_filter. now apply NoDup_ListNoDup.
    + apply list_elem_of_In, List.filter_In. split; [now apply list_elem_of_In|].
      now rewrite En.
Qed.

Lemma format_data_at (x : record) (formats : schema) format props p :
  NoDup (listed formats) -> (format, props) ∈ formats -> p ∈ props ->
  format_data x formats !! p
  = if is_nullish (get x p) then x !! p else Some (FORMATTER format (get x p)).
Proof.
  unfold format_data. revert x.
  induction formats as [|[f ps] fs IH]; intros x Hnd Hin Hp; [now apply elem_of_nil in Hin|].
  unfold listed in Hnd. cbn [map concat snd] in Hnd.
  apply NoDup_app in Hnd as (Hps & Hdis & Hfs). cbn [foldl].
  apply elem_of_cons in Hin as [[= <- <-]|Hin].
  - match goal with |- foldl ?g ?y fs !! p = _ => change (foldl g y fs) with (format_data y fs) end.
    rewrite format_data_unlisted by (now apply Hdis).
    now apply fold_fields_format.
  - assert (Hl : p ∈ listed fs).
    { unfold listed. apply list_elem_of_In, in_concat. exists props.
      split; [|now apply list_elem_of_In].
      apply in_map_iff. exists (format, props). split; [reflexivity|].
      now apply list_elem_of_In. }
    assert (Hsame : foldl (fun x prop => <[prop := FORMATTER f (get x prop)]> x) x
              (List.filter (fun prop => negb (is_nullish (get x prop))) ps) !! p = x !! p).
    { apply fold_fields_frame. intros H. apply List.filter_In in H as [H _].
      apply list_elem_of_In in H. now apply (Hdis p). }
    set (y := foldl (fun x prop => <[prop := FORMATTER f (get x prop)]> x) x
              (List.filter (fun prop => negb (is_nullish (get x prop))) ps)) in *.
    rewrite IH by assumption.
    assert (Hget : get y p = get x p) by (unfold get; now rewrite Hsame).
    now rewrite Hget, Hsame.
Qed.

(** X6. When no field is listed twice in the schema, formatting sets each
    listed field that is neither [null] nor missing, and whose name
    [Object.prototype] does not define, to its kind's format of the field's
    value, and leaves such a field that is [null], [undefined] or missing
    as it is. *)
Theorem format_data_listed (x : record) (formats : schema) format props p :
  NoDup (listed formats) -> (format, props) ∈ formats -> p ∈ props ->
  inherited p = false ->
  format_data x formats !! p
  = match x !! p with
    | Some v => Some (if is_nullish v then v else FORMATTER format v)
    | None => None
    end.
Proof.
  intros Hnd Hf Hp _. rewrite (format_data_at x formats format props p) by assumption.
  unfold get. destruct (x !! p) as [v|]; cbn; [|reflexivity].
  now destruct (is_nullish v).
Qed.

Lemma format_data_listed_witness :
  format_control_info {[ "pow" := Bool true; "stemp" := Null ]} !! "pow" = Some (Str "1")
  /\ format_control_info {[ "pow" := Bool true; "stemp" := Null ]} !! "stemp" = Some Null.
Proof.
  unfold format_control_info. split.
  - rewrite (format_data_listed _ ctrl_formats Boolean ["pow"] "pow")
      by (reflexivity || listed_in_schema).
    reflexivity.
  - rewrite (format_data_listed _ ctrl_formats Temperature ["shum"; "stemp"; "b_shum"] "stemp")
      by (reflexivity || listed_in_schema).
    reflexivity.
Defined.

Lemma fold_fields_dom (lambda : value -> value) (props : list string) : forall x : record,
  dom (foldl (fun x prop => <[prop := lambda (get x prop)]> x) x props)
  = dom x ∪ list_to_set props.
Proof.
  induction props as [|a ps IH]; intros x; cbn [foldl list_to_set].
  - now rewrite union_empty_r_L.
  - rewrite IH, dom_insert_L, (union_comm_L {[a]} (dom x)). now rewrite union_assoc_L.
Qed.

Lemma format_data_dom (x : record) (formats : schema) :
  dom (format_data x formats) = dom x.
Proof.
  apply set_eq. intros k. rewrite !elem_of_dom, <- !not_eq_None_Some.
  now rewrite format_data_keys.
Qed.

(** X7. For a schema that lists no name that [Object.prototype] defines,
    parsing gives the record every field that the schema lists, also those
    that the record did not have, and formatting never adds or removes a
    field. *)
Theorem mapper_keys (x : record) (formats : schema) :
  Forall (fun p => inherited p = false) (listed formats) ->
  dom (parse_data x formats) = dom x ∪ list_to_set (listed formats)
  /\ dom (format_data x formats) = dom x.
Proof.
  intros _. split.
  - unfold parse_data, listed. revert x.
    induction formats as [|[f ps] fs IH]; intros x; cbn [foldl map concat snd list_to_set].
    + now rewrite union_empty_r_L.
    + rewrite IH, fold_fields_dom, list_to_set_app_L. now rewrite union_assoc_L.
  - apply format_data_dom.
Qed.

Lemma mapper_keys_witness :
  dom (parse_control_info {[ "pow" := Str "1" ]})
  = dom ({[ "pow" := Str "1" ]} : record) ∪ list_to_set (listed ctrl_formats)
  /\ dom (format_control_info {[ "pow" := Bool true ]})
     = dom ({[ "pow" := Bool true ]} : record).
Proof.
  split.
  - apply (mapper_keys {[ "pow" := Str "1" ]} ctrl_formats). repeat constructor.
  - apply (mapper_keys {[ "pow" := Bool true ]} ctrl_formats). repeat constructor.
Defined.


(** ** Further properties of the coercion tables *)

(** X8. What the bool formatter writes never parses back as true: the parser
    knows the number 1 and the text true, the formatter writes the texts 1
    and 0. *)
Theorem bool_format_parses_false (x : value) :
  PARSER.bool (FORMATTER.bool x) = Bool false.
Proof. unfold FORMATTER.bool. now destruct (truthy (PARSER.bool x)). Qed.

Lemma format_temperature_number w :
  binary64 w -> FORMATTER.temperature (Num w) = Str (number_to_string (unsigned_zero w)).
Proof.
  intros Hw. unfold FORMATTER.temperature.
  change (PARSER.temperature (Num w)) with (Num (parseFloat (number_to_string w))).
  now rewrite parseFloat_number_to_string.
Qed.

Lemma parse_temperature_written w :
  binary64 w ->
  PARSER.temperature (Str (number_to_string w)) = Num (unsigned_zero w).
Proof.
  intros Hw. destruct (number_to_string_not_sentinel w Hw) as [E1 E2].
  rewrite temperature_of_text by assumption. now rewrite parseFloat_number_to_string.
Qed.

(** X9. A temperature that is a Number comes back from format and parse as the
    same Number, a negative zero as zero. *)
Theorem temperature_format_then_parse (w : number) :
  binary64 w ->
  PARSER.temperature (FORMATTER.temperature (Num w)) = Num (unsigned_zero w).
Proof.
  intros Hw. rewrite format_temperature_number by assumption.
  rewrite parse_temperature_written by now apply unsigned_zero_binary64.
  now rewrite unsigned_zero_idem.
Qed.

Lemma temperature_format_then_parse_witness :
  PARSER.temperature (FORMATTER.temperature (Num one)) = Num one.
Proof.
  apply (temperature_format_then_parse one). cbn. left.
  change (2 ^ 52) with 4503599627370496. change (2 ^ 53) with 9007199254740992. lia.
Defined.

(** *** Integers *)

Lemma round_integer_exact neg z :
  0 < z < 2 ^ 53 ->
  exists m e, round_decimal neg z 0 = Finite neg m e
    /\ Z.pos m * 2 ^ Z.max 0 e = z * 2 ^ Z.max 0 (- e).
Proof.
  intros Hz. set (l := Z.log2 z).
  pose proof (Z.log2_spec z ltac:(lia)) as [Hl1 Hl2]. fold l in Hl1, Hl2.
  pose proof (Z.log2_nonneg z) as Hl0. fold l in Hl0.
  assert (Hl : l <= 52).
  { destruct (Z_le_gt_dec l 52); [assumption|]. exfalso.
    assert (2 ^ 53 <= 2 ^ l) by (apply Z.pow_le_mono_r; lia). lia. }
  set (m := z * 2 ^ (52 - l)).
  assert (Hp : 0 < 2 ^ (52 - l)) by (apply Z.pow_pos_nonneg; lia).
  assert (Hm : 2 ^ 52 <= m < 2 ^ 53).
  { unfold m. replace (2 ^ 52) with (2 ^ l * 2 ^ (52 - l))
      by (rewrite <- Z.pow_add_r by lia; f_equal; lia).
    replace (2 ^ 53) with (2 ^ Z.succ l * 2 ^ (52 - l))
      by (rewrite <- Z.pow_add_r by lia; f_equal; lia).
    split; [apply Z.mul_le_mono_nonneg_r | apply Z.mul_lt_mono_pos_r]; lia. }
  assert (Hmp : Z.pos (Z.to_pos m) = m).
  { apply Z2Pos.id. change (2 ^ 52) with 4503599627370496 in Hm. lia. }
  exists (Z.to_pos m), (l - 52). rewrite Hmp.
  rewrite (Z.max_l 0 (l - 52)), (Z.max_r 0 (- (l - 52))) by lia.
  split.
  - unfold round_decimal. assert (E0 : (z =? 0) = false) by (apply Z.eqb_neq; lia).
    rewrite E0. change (Z.max 0 0) with 0. change (Z.max 0 (- 0)) with 0.
    change (10 ^ 0) with 1. apply round_ratio_exact.
    + left. rewrite Hmp. split; [assumption | lia].
    + lia.
    + lia.
    + unfold scale2. cbn [fst snd]. rewrite Hmp.
      rewrite (Z.max_l 0 (l - 52)), (Z.max_r 0 (- (l - 52))) by lia.
      unfold m. change (2 ^ 0) with 1. replace (- (l - 52)) with (52 - l) by lia. ring.
  - unfold m. change (2 ^ 0) with 1. replace (- (l - 52)) with (52 - l) by lia. ring.
Qed.

Lemma parseInt_digits (neg : bool) z rest :
  0 <= z -> stops rest = true ->
  parseInt ((if neg then "-" else "") ++ digits_of z ++ rest) = round_decimal neg z 0.
Proof.
  intros Hz Hr. unfold parseInt.
  destruct (digits_of_head z) as (c & r & Hh).
  pose proof (digits_of_all z Hz) as Hall.
  assert (Hs : read_sign (trim_start ((if neg then "-" else "") ++ digits_of z ++ rest))
               = (neg, digits_of z ++ rest)).
  { destruct neg.
    - change ("-" ++ digits_of z ++ rest) with (String "-" (digits_of z ++ rest)).
      rewrite trim_start_keep; [reflexivity | reflexivity | |]; intros; reflexivity.
    - change ("" ++ digits_of z ++ rest) with (digits_of z ++ rest).
      rewrite Hh in *. rewrite append_cons.
      cbn [all_digits] in Hall. apply andb_true_iff in Hall as [Hc _].
      destruct (digit_is_plain c Hc) as (_ & Hm & Hp & _ & H1 & H2 & H3).
      rewrite trim_start_keep by assumption. cbn [read_sign]. now rewrite Hm, Hp. }
  rewrite Hs, span_digits_append by assumption.
  rewrite Hh at 1. cbn [is_empty]. now rewrite digits_of_value.
Qed.

(** X10. The int kind reads a decimal integer below 2^53, with or without a
    minus sign, as exactly that integer, and ignores whatever follows the
    digits. *)
Theorem int_parse_exact (neg : bool) (z : Z) (rest : string) :
  0 <= z < 2 ^ 53 -> stops rest = true ->
  exists w,
    PARSER.int (Str ((if neg then "-" else "") ++ digits_of z ++ rest)) = Num w
    /\ is_integer w (if neg then - z else z).
Proof.
  intros Hz Hr. unfold PARSER.int. cbn [is_nullish to_string].
  rewrite parseInt_digits by (lia || assumption).
  destruct (Z.eq_dec z 0) as [->|Hne].
  - exists (Zero neg). split; [reflexivity|]. now destruct neg.
  - destruct (round_integer_exact neg z ltac:(lia)) as (m & e & -> & Hv).
    exists (Finite neg m e). split; [reflexivity|]. cbn [is_integer]. destruct neg; lia.
Qed.

Lemma int_parse_exact_witness :
  exists w, PARSER.int (Str "24.5") = Num w /\ is_integer w 24.
Proof.
  apply (int_parse_exact false 24 ".5"); [|reflexivity].
  change (2 ^ 53) with 9007199254740992. lia.
Defined.


(** ** Further properties of the control, sensor and basic records *)

Lemma get_some (x : record) p v : x !! p = Some v -> get x p = v.
Proof. unfold get. now intros ->. Qed.

Lemma format_control_pow (x : record) :
  format_control_info x !! "pow"
  = if is_nullish (get x "pow") then x !! "pow" else Some (FORMATTER.bool (get x "pow")).
Proof.
  unfold format_control_info.
  now rewrite (format_data_at x ctrl_formats Boolean ["pow"] "pow") by listed_in_schema.
Qed.

Lemma format_control_temperature (x : record) p :
  p ∈ ["shum"; "stemp"; "b_shum"] ->
  format_control_info x !! p
  = if is_nullish (get x p) then x !! p else Some (FORMATTER.temperature (get x p)).
Proof.
  intros Hp. unfold format_control_info.
  now rewrite (format_data_at x ctrl_formats Temperature ["shum"; "stemp"; "b_shum"] p)
    by (assumption || listed_in_schema).
Qed.

(** X11. Formatting a control record that is already formatted writes its
    [pow] as the text 0, whatever the value was before the first
    formatting, unless it was [null] or [undefined]. *)
Theorem format_again_pow (x : record) (v : value) :
  x !! "pow" = Some v -> is_nullish v = false ->
  format_control_info (format_control_info x) !! "pow" = Some (Str "0").
Proof.
  intros Hx Hv.
  assert (H1 : format_control_info x !! "pow" = Some (FORMATTER.bool v)).
  { rewrite format_control_pow, (get_some x _ v Hx), Hv. reflexivity. }
  rewrite format_control_pow, (get_some _ _ _ H1).
  unfold FORMATTER.bool. now destruct (truthy (PARSER.bool v)).
Qed.

Lemma format_again_pow_witness :
  format_control_info (format_control_info {[ "pow" := Bool true ]}) !! "pow"
  = Some (Str "0").
Proof. apply (format_again_pow _ (Bool true)); reflexivity. Defined.

(** X12. A temperature field that holds a Number is written the same by a
    second formatting as by the first. *)
Theorem format_again_temperature (x : record) (p : string) (w : number) :
  p ∈ ["shum"; "stemp"; "b_shum"] -> x !! p = Some (Num w) -> binary64 w ->
  format_control_info (format_control_info x) !! p = format_control_info x !! p.
Proof.
  intros Hp Hx Hw.
  assert (H1 : format_control_info x !! p = Some (Str (number_to_string (unsigned_zero w)))).
  { rewrite format_control_temperature, (get_some x _ _ Hx) by assumption.
    cbn [is_nullish]. now rewrite format_temperature_number. }
  rewrite format_control_temperature, (get_some _ _ _ H1) by assumption.
  rewrite H1. cbn [is_nullish]. f_equal. unfold FORMATTER.temperature.
  rewrite parse_temperature_written by now apply unsigned_zero_binary64.
  now rewrite unsigned_zero_idem.
Qed.

Lemma format_again_temperature_witness :
  format_control_info (format_control_info {[ "stemp" := Num one ]}) !! "stemp"
  = format_control_info {[ "stemp" := Num one ]} !! "stemp".
Proof.
  apply (format_again_temperature _ "stemp" one).
  - apply (bool_decide_unpack _). vm_compute. exact I.
  - reflexivity.
  - cbn. left. change (2 ^ 52) with 4503599627370496.
    change (2 ^ 53) with 9007199254740992. lia.
Defined.

Lemma decoded_get response (r : record) p :
  decode_response response = Ok r ->
  (r !! p = None /\ get r p = Undefined)
  \/ exists s, r !! p = Some (Str s) /\ get r p = Str s.
Proof.
  intros H. unfold get. destruct (r !! p) as [v|] eqn:E; [|now left].
  apply decode_response_fields in H as (p0 & rest & _ & _ & _ & H).
  destruct (decode_fields_strings rest r p v H E) as [s ->]. right. eauto.
Qed.

(** X13. In the control state read from a decoded response, [pow] is true
    exactly when the response gave it as the text true; every other text,
    the text 1 among them, and a missing [pow] read as false. *)
Theorem decoded_pow (response : string) (r : record) :
  decode_response response = Ok r ->
  (parse_control_info r !! "pow" = Some (Bool true) <-> r !! "pow" = Some (Str "true"))
  /\ (r !! "pow" <> Some (Str "true") -> parse_control_info r !! "pow" = Some (Bool false)).
Proof.
  intros H.
  assert (Hp : parse_control_info r !! "pow" = Some (PARSER.bool (get r "pow"))).
  { unfold parse_control_info.
    now rewrite (parse_data_at r ctrl_formats Boolean ["pow"] "pow") by listed_in_schema. }
  rewrite Hp. destruct (decoded_get response r "pow" H) as [[Hn ->] | (s & Hs & ->)].
  - rewrite Hn. split; [split; discriminate | reflexivity].
  - rewrite Hs. unfold PARSER.bool. cbn [strict_eq]. rewrite !orb_false_r.
    destruct (String.eqb_spec s "true") as [->|Hne].
    + split; [split; reflexivity | congruence].
    + split; [split; [discriminate | congruence] | reflexivity].
Qed.

Lemma decoded_pow_witness :
  parse_control_info sample_current !! "pow" = Some (Bool false).
Proof.
  apply (decoded_pow sample_response sample_current).
  - vm_compute. reflexivity.
  - discriminate.
Defined.

(** X14. In the sensor readings read from a decoded response, a temperature or
    humidity is [null] exactly when the response lacks it or gives it as
    one of the sentinels; any other text reads as the Number that
    [parseFloat] finds in it. *)
Theorem decoded_sensor (response : string) (r : record) (p : string) :
  decode_response response = Ok r -> p ∈ ["hhum"; "htemp"; "otemp"] ->
  (parse_sensor_info r !! p = Some Null
   <-> r !! p = None \/ r !! p = Some (Str "-") \/ r !! p = Some (Str "--"))
  /\ (forall s, r !! p = Some (Str s) -> s <> "-" -> s <> "--" ->
       parse_sensor_info r !! p = Some (Num (parseFloat s))).
Proof.
  intros H Hin.
  assert (Hp : parse_sensor_info r !! p = Some (PARSER.temperature (get r p))).
  { unfold parse_sensor_info.
    now rewrite (parse_data_at r [(Int, ["err"]); (Temperature, ["hhum"; "htemp"; "otemp"])]
                   Temperature ["hhum"; "htemp"; "otemp"] p)
      by (assumption || listed_in_schema). }
  rewrite Hp. destruct (decoded_get response r p H) as [[Hn ->] | (s & Hs & ->)].
  - rewrite Hn. split; [split; [now left | reflexivity] | discriminate].
  - rewrite Hs. unfold PARSER.temperature. cbn [is_nullish strict_eq orb].
    destruct (String.eqb_spec s "-") as [->|H1]; cbn [orb].
    { split; [split; [intros _; right; now left | reflexivity]|].
      intros s' [= <-]. congruence. }
    destruct (String.eqb_spec s "--") as [->|H2].
    { split; [split; [intros _; right; now right | reflexivity]|].
      intros s' [= <-]. congruence. }
    split.
    + split; [discriminate|]. intros [Hc|[Hc|Hc]]; congruence.
    + intros s' [= <-] _ _. reflexivity.
Qed.

Lemma decoded_sensor_witness :
  parse_sensor_info {[ "htemp" := Str "-"; "otemp" := Str "21.5" ]} !! "htemp" = Some Null.
Proof.
  apply (decoded_sensor "ret=OK,htemp=-,otemp=21.5" _ "htemp").
  - vm_compute. reflexivity.
  - apply (bool_decide_unpack _). vm_compute. exact I.
  - right. now left.
Defined.


Lemma decodeURI_plain (s : string) : contains "%" s = false -> decodeURI s = Some s.
Proof.
  unfold decodeURI. induction s as [|c s IH]; [reflexivity|].
  cbn [contains]. intros H. apply orb_false_iff in H as [Hc Hs].
  cbn [decodeURI_from]. rewrite Hc, (IH Hs). reflexivity.
Qed.

Lemma basic_formats_at (x : record) :
  let y := parse_data x [(Int, ["port"; "err"; "pv"]); (Boolean, ["pow"; "led"])] in
  (forall p, p ∈ ["port"; "err"; "pv"] -> y !! p = Some (PARSER.int (get x p)))
  /\ (forall p, p ∈ ["pow"; "led"] -> y !! p = Some (PARSER.bool (get x p)))
  /\ (forall p, p ∉ ["port"; "err"; "pv"; "pow"; "led"] -> y !! p = x !! p).
Proof.
  cbv zeta. split; [|split]; intros p Hp.
  - now rewrite (parse_data_at x _ Int ["port"; "err"; "pv"] p)
      by (assumption || listed_in_schema).
  - now rewrite (parse_data_at x _ Boolean ["pow"; "led"] p)
      by (assumption || listed_in_schema).
  - now apply parse_data_unlisted.
Qed.

(** X15. A basic-info record without a name still parses: the missing name
    becomes the text of [undefined]. *)
Theorem basic_info_missing_name (x : record) :
  x !! "name" = None ->
  exists r, parse_basic_info x = Ok r /\ r !! "name" = Some (Str "undefined").
Proof.
  intros Hn. unfold parse_basic_info, get. rewrite Hn.
  change (decodeURI (to_string (default Undefined None))) with (Some "undefined").
  eexists. split; [reflexivity|].
  rewrite parse_data_unlisted; [apply lookup_insert_eq|].
  apply (bool_decide_unpack _). vm_compute. exact I.
Qed.

Lemma basic_info_missing_name_witness :
  exists r, parse_basic_info {[ "port" := Str "30050" ]} = Ok r
            /\ r !! "name" = Some (Str "undefined").
Proof. apply (basic_info_missing_name {[ "port" := Str "30050" ]}). reflexivity. Defined.

(** X16. A basic-info record whose name holds no [%] parses to the record with
    the same name, its [port], [err] and [pv] parsed as int, its [pow] and
    [led] as bool, and every other field as it was. *)
Theorem basic_info_fields (x : record) (name : string) :
  x !! "name" = Some (Str name) -> contains "%" name = false ->
  exists r, parse_basic_info x = Ok r
    /\ r !! "name" = Some (Str name)
    /\ (forall p, p ∈ ["port"; "err"; "pv"] -> r !! p = Some (PARSER.int (get x p)))
    /\ (forall p, p ∈ ["pow"; "led"] -> r !! p = Some (PARSER.bool (get x p)))
    /\ (forall p, p ∉ ["port"; "err"; "pv"; "pow"; "led"] -> r !! p = x !! p).
Proof.
  intros Hx Hn. unfold parse_basic_info. rewrite (get_some x _ _ Hx). cbn [to_string].
  rewrite decodeURI_plain by assumption. eexists. split; [reflexivity|].
  assert (Hsame : <["name" := Str name]> x = x) by now apply insert_id.
  rewrite Hsame. destruct (basic_formats_at x) as (Hi & Hb & Ho).
  repeat split; try assumption.
  rewrite Ho; [assumption|]. apply (bool_decide_unpack _). vm_compute. exact I.
Qed.

Lemma basic_info_fields_witness :
  exists r, parse_basic_info {[ "name" := Str "Living room"; "port" := Str "30050" ]} = Ok r
    /\ r !! "name" = Some (Str "Living room").
Proof.
  assert (H : ({[ "name" := Str "Living room"; "port" := Str "30050" ]} : record) !! "name"
              = Some (Str "Living room")) by reflexivity.
  destruct (basic_info_fields _ "Living room" H eq_refl) as (r & Hr & Hname & _).
  exists r. split; assumption.
Defined.

(** ** Further properties of the requests *)

Lemma send_request_no_host host transport method url params headers log :
  no_host host ->
  send_request host transport method url params headers log
  = (Throw (Error "Host is required"), log).
Proof. intros [-> | ->]; reflexivity. Qed.

(** X17. Without a configured host every public operation fails with the error
    that a host is required, and hands nothing to the transport. *)
Theorem no_host_no_request (host : option string)
  (transport : list request -> request -> reply) (params : record) (log : list request) :
  no_host host ->
  reboot host transport log = (Throw (Error "Host is required"), log)
  /\ get_basic_info host transport log = (Throw (Error "Host is required"), log)
  /\ get_sensor_info host transport log = (Throw (Error "Host is required"), log)
  /\ get_control_info host transport log = (Throw (Error "Host is required"), log)
  /\ set_control_info host transport params log = (Throw (Error "Host is required"), log).
Proof.
  intros Hh.
  unfold reboot, get_basic_info, get_sensor_info, get_control_info, set_control_info,
    get_raw_control_info, then_call, bind.
  now rewrite !send_request_no_host by assumption.
Qed.

Lemma no_host_no_request_witness :
  set_control_info (Some "") (fun _ _ => Body sample_response) {[ "stemp" := Str "26" ]} []
  = (Throw (Error "Host is required"), []).
Proof.
  apply (no_host_no_request (Some "") (fun _ _ => Body sample_response)). now right.
Defined.

(** X18. With a host, each read operation hands the transport exactly one
    request, to its own endpoint and without query parameters, whatever the
    reply is. *)
Theorem read_operations_one_request (h : string)
  (transport : list request -> request -> reply) (log : list request) :
  is_empty h = false ->
  snd (reboot (Some h) transport log) = (log ++ [get_request h "/common/reboot"])%list
  /\ snd (get_basic_info (Some h) transport log)
     = (log ++ [get_request h "/common/basic_info"])%list
  /\ snd (get_sensor_info (Some h) transport log)
     = (log ++ [get_request h "/aircon/get_sensor_info"])%list
  /\ snd (get_control_info (Some h) transport log)
     = (log ++ [get_request h "/aircon/get_control_info"])%list.
Proof.
  intros Hh.
  unfold reboot, get_basic_info, get_sensor_info, get_control_info,
    get_raw_control_info, then_call, bind, ret.
  rewrite !send_request_get by assumption. unfold get_request.
  repeat split;
    match goal with |- context [transport log ?req] =>
      destruct (transport log req) as [err|data]; [reflexivity|];
      destruct (decode_response data); reflexivity
    end.
Qed.

Lemma read_operations_one_request_witness :
  snd (get_sensor_info (Some "aircon.local") (fun _ _ => Failed "ETIMEDOUT") [])
  = [get_request "aircon.local" "/aircon/get_sensor_info"].
Proof.
  apply (read_operations_one_request "aircon.local" (fun _ _ => Failed "ETIMEDOUT") []).
  reflexivity.
Defined.

Lemma fold_copy_dom (g : string -> value) (l : list string) : forall m : record,
  dom (foldl (fun m x => <[x := g x]> m) m l) = dom m ∪ list_to_set l.
Proof.
  induction l as [|a l IH]; intros m; cbn [foldl list_to_set].
  - now rewrite union_empty_r_L.
  - rewrite IH, dom_insert_L, (union_comm_L {[a]} (dom m)). now rewrite union_assoc_L.
Qed.

(** X19. After a successful fetch the write that [set_control_info] sends
    carries the six required fields and the fields of the change set other
    than [__proto__], and no other, whatever the current state holds. *)
Theorem write_carries_six
  (h : string) (transport : list request -> request -> reply)
  (changes current : record) (response : string) (log : list request) :
  is_empty h = false ->
  transport log (fetch_request h) = Body response ->
  decode_response response = Ok current ->
  exists submitted : record,
    snd (set_control_info (Some h) transport changes log)
    = (log ++ [fetch_request h; write_request h submitted])%list
    /\ dom submitted = list_to_set six_fields ∪ (dom changes ∖ {["__proto__"]}).
Proof.
  intros Hh Ht Hd.
  exists (assign (minimal_state current) (format_control_info changes)). split.
  - unfold set_control_info, get_raw_control_info, bind, ret.
    rewrite send_request_get by assumption. fold (fetch_request h).
    rewrite Ht, Hd, send_request_get by assumption.
    cbn [snd]. now rewrite <- app_assoc.
  - unfold assign. rewrite minimal_state_no_proto.
    rewrite dom_union_L, dom_delete_L. unfold format_control_info.
    rewrite format_data_dom. unfold minimal_state.
    rewrite (fold_copy_dom (get current)), dom_empty_L.
    rewrite union_empty_l_L. apply union_comm_L.
Qed.

Lemma write_carries_six_witness :
  exists submitted : record,
    snd (set_control_info (Some "aircon.local") (fun _ _ => Body sample_response)
                          {[ "stemp" := Str "26"; "__proto__" := Str "x" ]} [])
    = [fetch_request "aircon.local"; write_request "aircon.local" submitted]
    /\ dom submitted
       = list_to_set six_fields
         ∪ (dom ({[ "stemp" := Str "26"; "__proto__" := Str "x" ]} : record) ∖ {["__proto__"]}).
Proof.
  apply (write_carries_six "aircon.local" (fun _ _ => Body sample_response)
           {[ "stemp" := Str "26"; "__proto__" := Str "x" ]}
           sample_current sample_response []).
  - reflexivity.
  - reflexivity.
  - vm_compute. reflexivity.
Defined.

(** X20. After a successful fetch, [set_control_info] ends as the write ends:
    with the decoded reply of the write, or with the failure of the write,
    and the transport has answered the write knowing of the fetch. *)
Theorem set_control_info_result
  (h : string) (transport : list request -> request -> reply)
  (changes current : record) (response : string) (log : list request) :
  is_empty h = false ->
  transport log (fetch_request h) = Body response ->
  decode_response response = Ok current ->
  fst (set_control_info (Some h) transport changes log)
  = match transport (log ++ [fetch_request h])%list
            (write_request h (assign (minimal_state current) (format_control_info changes)))
    with
    | Failed err => Throw (Rejected err)
    | Body reply => decode_response reply
    end.
Proof.
  intros Hh Ht Hd. unfold set_control_info, get_raw_control_info, bind, ret.
  rewrite send_request_get by assumption. fold (fetch_request h).
  rewrite Ht, Hd, send_request_get by assumption. reflexivity.
Qed.

Lemma set_control_info_result_witness :
  fst (set_control_info (Some "aircon.local")
         (fun log _ => match log with [] => Body sample_response | _ => Body "ret=PARAM NG" end)
         {[ "stemp" := Str "99" ]} [])
  = Throw InvalidParameters.
Proof.
  apply (set_control_info_result "aircon.local"
           (fun log _ => match log with [] => Body sample_response | _ => Body "ret=PARAM NG" end)
           {[ "stemp" := Str "99" ]} sample_current sample_response []).
  - reflexivity.
  - reflexivity.
  - vm_compute. reflexivity.
Defined.
